(** * Bass guitar chord assistant: the music-theory engine

    A shallow embedding of the analysis classes of [bass_assistant_v1.py]
    ([Chord], [Song], [BassCard]) together with the module-level lookup
    tables, and the properties of the engine stated over that embedding.

    Conventions of the embedding.
    - A Python [str] is a [string] whose characters are code points below
      256: one [ascii] per code point.  [str.strip], [str.lower] and
      [str.isspace] are Python's, restricted to that range.
    - A Python [int] is a [Z]; [%] is [Z.modulo] (the sign follows the
      divisor, as in Python).
    - A Python [dict] is a [gmap]; [d.get(k, v)] is [default v (d !! k)] and
      [d[k]] raises [KeyError] on a missing key.
    - A value that may be [None] is an [option]; code that may raise returns
      a [result]. *)

From Stdlib Require Import ZArith Lia Ascii String DecimalString.
From stdpp Require Import base option list gmap strings.

Local Open Scope Z_scope.

(** ** Exceptions *)

Inductive exn := TypeError | KeyError | IndexError.

Inductive result (A : Type) :=
  | Ok (a : A)
  | Raise (e : exn).
Arguments Ok {A} a.
Arguments Raise {A} e.

Global Instance result_ret : MRet result := fun A a => Ok a.
Global Instance result_bind : MBind result := fun A B k r =>
  match r with
  | Ok a => k a
  | Raise e => Raise e
  end.

Definition returns {A} (r : result A) : Prop := exists a, r = Ok a.

(** ** Python string primitives *)

Module PyStr.

(** [c.isspace()] for a code point below 256. *)
Definition isspace (c : ascii) : bool :=
  match c with
  | "009" | "010" | "011" | "012" | "013"
  | "028" | "029" | "030" | "031" | " "
  | "133" | "160" => true
  | _ => false
  end%char.

(** [c.lower()] for a code point below 256: A-Z, and the Latin-1 capitals
    U+00C0..U+00DE except the multiplication sign U+00D7. *)
Definition lower_char (c : ascii) : ascii :=
  let n := N_of_ascii c in
  if ((65 <=? n) && (n <=? 90))%N then ascii_of_N (n + 32)
  else if ((192 <=? n) && (n <=? 222) && negb (n =? 215))%N
       then ascii_of_N (n + 32)
  else c.

Fixpoint lower (s : string) : string :=
  match s with
  | "" => ""
  | String c s' => String (lower_char c) (lower s')
  end.

Fixpoint lstrip (s : string) : string :=
  match s with
  | "" => ""
  | String c s' => if isspace c then lstrip s' else s
  end.

Fixpoint rstrip (s : string) : string :=
  match s with
  | "" => ""
  | String c s' =>
      match rstrip s' with
      | "" => if isspace c then "" else String c ""
      | r => String c r
      end
  end.

(** [s.strip()] *)
Definition strip (s : string) : string := rstrip (lstrip s).

(** [bool(s)]: a string is truthy when it is not empty. *)
Definition truthy (s : string) : bool :=
  match s with "" => false | _ => true end.

Fixpoint startswith (p s : string) : bool :=
  match p, s with
  | "", _ => true
  | String a p', String b s' =>
      if decide (a = b) then startswith p' s' else false
  | String _ _, "" => false
  end.

(** [sub in s] *)
Fixpoint contains (sub s : string) : bool :=
  startswith sub s ||
  match s with
  | "" => false
  | String _ s' => contains sub s'
  end.

(** [s.split(sep)] for a one-character separator. *)
Fixpoint split (sep : ascii) (s : string) : list string :=
  match s with
  | "" => [""]
  | String c s' =>
      if decide (c = sep) then "" :: split sep s'
      else match split sep s' with
           | h :: t => String c h :: t
           | [] => [String c ""]
           end
  end.

(** [s[n:]] *)
Fixpoint slice_from (n : nat) (s : string) : string :=
  match n, s with
  | O, _ => s
  | S n', String _ s' => slice_from n' s'
  | S _, "" => ""
  end.

(** [str(z)] *)
Definition str (z : Z) : string := NilZero.string_of_int (Z.to_int z).

End PyStr.

(** [l[i]] on a Python list. *)
Definition index {A} (l : list A) (i : nat) : result A :=
  match l !! i with
  | Some a => Ok a
  | None => Raise IndexError
  end.

(** [d[k]] on a Python dict. *)
Definition subscript `{Countable K} {V} (d : gmap K V) (k : K) : result V :=
  match d !! k with
  | Some v => Ok v
  | None => Raise KeyError
  end.

(** [d.get(k, v)] on a Python dict. *)
Definition get `{Countable K} {V} (d : gmap K V) (k : K) (v : V) : V :=
  default v (d !! k).

(** The pattern [^([A-G][#b]?)] of [re.match]: the matched group, if any. *)
Definition re_match_root (s : string) : option string :=
  match s with
  | String c s' =>
      if ((65 <=? N_of_ascii c) && (N_of_ascii c <=? 71))%N then
        match s' with
        | String d _ =>
            if decide (d = "#"%char \/ d = "b"%char)
            then Some (String c (String d ""))
            else Some (String c "")
        | "" => Some (String c "")
        end
      else None
  | "" => None
  end.

(** ** Note mapping and music theory data *)

Definition NOTE_TO_PITCH : gmap string Z :=
  list_to_map
    [("C", 0); ("C#", 1); ("Db", 1); ("D", 2); ("D#", 3); ("Eb", 3);
     ("E", 4); ("F", 5); ("F#", 6); ("Gb", 6); ("G", 7); ("G#", 8);
     ("Ab", 8); ("A", 9); ("A#", 10); ("Bb", 10); ("B", 11)].

Definition PITCH_TO_NOTE_SHARP : gmap Z string :=
  list_to_map
    [(0, "C"); (1, "C#"); (2, "D"); (3, "D#"); (4, "E"); (5, "F");
     (6, "F#"); (7, "G"); (8, "G#"); (9, "A"); (10, "A#"); (11, "B")].

Definition PITCH_TO_NOTE_FLAT : gmap Z string :=
  list_to_map
    [(0, "C"); (1, "Db"); (2, "D"); (3, "Eb"); (4, "E"); (5, "F");
     (6, "Gb"); (7, "G"); (8, "Ab"); (9, "A"); (10, "Bb"); (11, "B")].

Definition CHORD_FORMULAS : gmap string (list Z) :=
  list_to_map
    [("", [0; 4; 7]);
     ("m", [0; 3; 7]);
     ("7", [0; 4; 7; 10]);
     ("m7", [0; 3; 7; 10]);
     ("maj7", [0; 4; 7; 11]);
     ("dim", [0; 3; 6]);
     ("dim7", [0; 3; 6; 9]);
     ("aug", [0; 4; 8]);
     ("+", [0; 4; 8]);
     ("sus4", [0; 5; 7]);
     ("sus2", [0; 2; 7]);
     ("6", [0; 4; 7; 9]);
     ("7sus4", [0; 5; 7; 10]);
     ("m7b5", [0; 3; 6; 10])].

(** The degree sign U+00B0 is one code point. *)
Definition degree_sign : string := String "176"%char "".

Definition SCALE_DEGREES_MAJOR : list string :=
  ["I"; "ii"; "iii"; "IV"; "V"; "vi"; "vii" +:+ degree_sign].
Definition SCALE_DEGREES_MINOR : list string :=
  ["i"; "ii" +:+ degree_sign; "III"; "iv"; "v"; "VI"; "VII"].

Definition BASS_TUNINGS : gmap Z (list (string * Z)) :=
  list_to_map
    [(4, [("G", 55); ("D", 50); ("A", 45); ("E", 40)]);
     (5, [("G", 55); ("D", 50); ("A", 45); ("E", 40); ("B", 35)])].

Definition FRETS : Z := 5.

Inductive NoteType := BASS_NOTE | CHORD_NOTE | NOT_IN_CHORD.

(** ** class Chord *)

Module Chord.

Record t := mk {
  symbol : string;
  section : string;
  root : string;
  bass_note : string;
  suffix : string
}.

(** The root and the suffix read from [chord_part]: the matched group of
    the pattern and the rest, or the fallback on the first character. *)
Definition root_suffix (chord_part : string) : string * string :=
  match re_match_root chord_part with
  | Some r =>
      (r, PyStr.strip
            (PyStr.lower (PyStr.slice_from (String.length r) chord_part)))
  | None =>
      (match chord_part with String c _ => String c "" | "" => "" end,
       if decide (1 < String.length chord_part)%nat
       then PyStr.strip (PyStr.lower (PyStr.slice_from 1%nat chord_part))
       else "")
  end.

(** [Chord.parse], on the already stripped [self.symbol].  The local
    [bass_note] is [None] when the symbol has no slash. *)
Definition parse (symbol section : string) : result t :=
  '(chord_part, bass) ←
    (if PyStr.contains "/" symbol then
       let parts := PyStr.split "/" symbol in
       p0 ← index parts 0%nat;
       p1 ← index parts 1%nat;
       Ok (PyStr.strip p0, Some (PyStr.strip p1))
     else Ok (symbol, None));
  let '(root, suffix) := root_suffix chord_part in
  let bass_note :=
    match bass with
    | None => root
    | Some b => if PyStr.truthy b then b else root
    end in
  Ok (mk symbol section root bass_note suffix).

(** [Chord(symbol, section)] *)
Definition init (symbol section : string) : result t :=
  parse (PyStr.strip symbol) section.

End Chord.

(** ** class Song *)

(** [for x in l: s = body(s, x)], stopping at the first exception. *)
Fixpoint for_ {A S} (l : list A) (body : S -> A -> result S) (s : S)
  : result S :=
  match l with
  | [] => Ok s
  | a :: l' => s' ← body s a; for_ l' body s'
  end.

(** [collections.Counter]: a dict is ordered by first insertion, and a
    count is updated in place, so the items are kept as an association list
    in order of first appearance. *)
Module Counter.

Definition t := list (string * nat).

Fixpoint incr (k : string) (c : t) : t :=
  match c with
  | [] => [(k, 1%nat)]
  | (k', n) :: c' =>
      if decide (k' = k) then (k', S n) :: c' else (k', n) :: incr k c'
  end.

(** [Counter(iterable)] *)
Definition of_list (l : list string) : t :=
  fold_left (fun c k => incr k c) l [].

(** [max(items, key=itemgetter(1))]: the first item with the largest
    count; a later item replaces the best one only when strictly larger. *)
Definition max_item (first : string * nat) (others : t) : string * nat :=
  fold_left (fun best y => if (snd best <? snd y)%nat then y else best)
            others first.

(** [c.most_common(1)], which is [heapq.nlargest(1, c.items(), key=count)]:
    the empty list for an empty counter, else the single [max] item. *)
Definition most_common_1 (c : t) : t :=
  match c with
  | [] => []
  | x :: xs => [max_item x xs]
  end.

End Counter.

Module Song.

Record t := mk {
  title : string;
  author : string;
  key : option string;
  chords : list Chord.t
}.

(** [Song.add_chord] *)
Definition add_chord (self : t) (chord section : string) : result t :=
  if PyStr.truthy (PyStr.strip chord) then
    c ← Chord.init chord section;
    Ok (mk (title self) (author self) (key self) (chords self ++ [c]))
  else Ok self.

(** ['m' in suffix and 'maj' not in suffix and 'dim' not in suffix] *)
Definition minor_like (s : string) : bool :=
  PyStr.contains "m" s && negb (PyStr.contains "maj" s)
  && negb (PyStr.contains "dim" s).

(** The loop that sets [is_minor] and breaks at the first match. *)
Fixpoint scan_minor (most_common_root : string) (l : list Chord.t) : bool :=
  match l with
  | [] => false
  | chord :: rest =>
      if decide (Chord.root chord = most_common_root) then
        if minor_like (Chord.suffix chord) then true
        else scan_minor most_common_root rest
      else scan_minor most_common_root rest
  end.

(** [Song.detect_key], on [self.chords]. *)
Definition detect_key (chords : list Chord.t) : result string :=
  match chords with
  | [] => Ok "C"
  | _ =>
      let roots :=
        filter (fun r => PyStr.truthy r = true) (map Chord.root chords) in
      match roots with
      | [] => Ok "C"
      | _ =>
          let root_counts := Counter.of_list roots in
          item ← index (Counter.most_common_1 root_counts) 0%nat;
          let most_common_root := fst item in
          let is_minor := scan_minor most_common_root chords in
          Ok (most_common_root +:+ (if is_minor then "m" else ""))
      end
  end.

End Song.

(** ** class BassCard *)

(** [range(n)] *)
Definition range (n : Z) : list Z := map Z.of_nat (seq 0 (Z.to_nat n)).

Module BassCard.

Definition cell := (NoteType * string)%type.

Record t := mk {
  chord : Chord.t;
  key : option string;
  string_count : Z;
  scale_degree : string;
  notes : list string;
  note_pitches : list Z;
  bass_pitch : Z;
  fretboard : list (string * list cell)
}.

(** [not self.key]: [None] and the empty string are both falsy. *)
Definition key_truthy (key : option string) : bool :=
  match key with
  | None => false
  | Some k => PyStr.truthy k
  end.

(** [sub in self.key]: [TypeError] when the key is [None]. *)
Definition in_key (sub : string) (key : option string) : result bool :=
  match key with
  | None => Raise TypeError
  | Some k => Ok (PyStr.contains sub k)
  end.

(** [re.match(r'^([A-G][#b]?)', self.key)]: [TypeError] on [None]. *)
Definition match_key (key : option string) : result (option string) :=
  match key with
  | None => Raise TypeError
  | Some k => Ok (re_match_root k)
  end.

(** [any(accidental in self.key for accidental in accidentals)] *)
Fixpoint any_in_key (accidentals : list string) (key : option string)
  : result bool :=
  match accidentals with
  | [] => Ok false
  | a :: rest =>
      b ← in_key a key;
      if b : bool then Ok true else any_in_key rest key
  end.

(** [any(accidental in self.key for accidental in ['#', 'm'])
     or '#' in self.chord.root] *)
Definition use_sharp (chord : Chord.t) (key : option string) : result bool :=
  b ← any_in_key ["#"; "m"] key;
  if b : bool then Ok true else Ok (PyStr.contains "#" (Chord.root chord)).

(** The chain of [if degree == ...] tests and the final f-string. *)
Definition degree_label (scale_degrees : list string) (degree : Z)
  : result string :=
  if decide (degree = 0) then index scale_degrees 0%nat
  else if decide (degree = 2) then index scale_degrees 1%nat
  else if decide (degree = 4) then index scale_degrees 2%nat
  else if decide (degree = 5) then index scale_degrees 3%nat
  else if decide (degree = 7) then index scale_degrees 4%nat
  else if decide (degree = 9) then index scale_degrees 5%nat
  else if decide (degree = 11) then index scale_degrees 6%nat
  else Ok ("? (" +:+ PyStr.str degree +:+ ")").

(** [BassCard._get_scale_degree] *)
Definition _get_scale_degree (chord : Chord.t) (key : option string)
  : result string :=
  if negb (key_truthy key) || negb (PyStr.truthy (Chord.root chord))
  then Ok "?"
  else
    has_m ← in_key "m" key;
    is_minor_key ←
      (if has_m : bool then
         has_maj ← in_key "maj" key;
         if has_maj : bool then Ok false
         else has_dim ← in_key "dim" key; Ok (negb has_dim)
       else Ok false);
    key_root_match ← match_key key;
    let key_root := default "C" key_root_match in
    let key_pitch := get NOTE_TO_PITCH key_root 0 in
    let root_pitch := get NOTE_TO_PITCH (Chord.root chord) 0 in
    let degree := (root_pitch - key_pitch) mod 12 in
    let scale_degrees :=
      if is_minor_key : bool then SCALE_DEGREES_MINOR
      else SCALE_DEGREES_MAJOR in
    degree_label scale_degrees degree.

(** [CHORD_FORMULAS.get(self.chord.suffix, CHORD_FORMULAS[''])] *)
Definition formula_of (chord : Chord.t) : result (list Z) :=
  major ← subscript CHORD_FORMULAS "";
  Ok (get CHORD_FORMULAS (Chord.suffix chord) major).

(** [BassCard._get_chord_notes] *)
Definition _get_chord_notes (chord : Chord.t) (key : option string)
  : result (list string) :=
  if negb (PyStr.truthy (Chord.root chord)) then Ok ["?"]
  else
    let root_pitch := get NOTE_TO_PITCH (Chord.root chord) 0 in
    formula ← formula_of chord;
    let note_pitches :=
      map (fun interval => (root_pitch + interval) mod 12) formula in
    sharp ← use_sharp chord key;
    let pitch_to_note :=
      if sharp : bool then PITCH_TO_NOTE_SHARP else PITCH_TO_NOTE_FLAT in
    mapM (subscript pitch_to_note) note_pitches.

(** [BassCard._get_chord_note_pitches] *)
Definition _get_chord_note_pitches (chord : Chord.t) : result (list Z) :=
  if negb (PyStr.truthy (Chord.root chord)) then Ok []
  else
    let root_pitch := get NOTE_TO_PITCH (Chord.root chord) 0 in
    formula ← formula_of chord;
    Ok (map (fun interval => (root_pitch + interval) mod 12) formula).

(** The body of the inner loop of [_generate_fretboard]: one fret. *)
Definition fret_step (chord : Chord.t) (key : option string)
    (chord_pitches : list Z) (bass_pitch_class base_pitch : Z)
    (row : list cell) (fret : Z) : result (list cell) :=
  let note_pitch := (base_pitch + fret) mod 12 in
  sharp ← use_sharp chord key;
  note_name ←
    (if sharp : bool then subscript PITCH_TO_NOTE_SHARP note_pitch
     else subscript PITCH_TO_NOTE_FLAT note_pitch);
  if decide (note_pitch = bass_pitch_class) then
    Ok (row ++ [(BASS_NOTE, note_name)])
  else if decide (note_pitch ∈ chord_pitches) then
    Ok (row ++ [(CHORD_NOTE, note_name)])
  else Ok (row ++ [(NOT_IN_CHORD, note_name)]).

(** The body of the outer loop: one string. *)
Definition string_step (chord : Chord.t) (key : option string)
    (chord_pitches : list Z) (bass_pitch_class : Z)
    (grid : list (string * list cell)) (s : string * Z)
  : result (list (string * list cell)) :=
  let '(string_name, base_pitch) := s in
  row ← for_ (range (FRETS + 1))
             (fret_step chord key chord_pitches bass_pitch_class base_pitch)
             [];
  Ok (grid ++ [(string_name, row)]).

(** [BassCard._generate_fretboard], reading [self.note_pitches],
    [self.bass_pitch], [self.string_count], [self.key] and [self.chord]. *)
Definition _generate_fretboard (chord : Chord.t) (key : option string)
    (string_count : Z) (note_pitches : list Z) (bass_pitch : Z)
  : result (list (string * list cell)) :=
  let chord_pitches := note_pitches in
  let bass_pitch_class := bass_pitch in
  bass_strings ← subscript BASS_TUNINGS string_count;
  for_ bass_strings
       (string_step chord key chord_pitches bass_pitch_class) [].

(** [BassCard(chord, key, string_count)] *)
Definition init (chord : Chord.t) (key : option string) (string_count : Z)
  : result t :=
  scale_degree ← _get_scale_degree chord key;
  notes ← _get_chord_notes chord key;
  note_pitches ← _get_chord_note_pitches chord;
  let bass_pitch := get NOTE_TO_PITCH (Chord.bass_note chord) 0 in
  fretboard ←
    _generate_fretboard chord key string_count note_pitches bass_pitch;
  Ok (mk chord key string_count scale_degree notes note_pitches
         bass_pitch fretboard).

End BassCard.

(** [BassCard.get_note_at_position], on a constructed card. *)
Definition get_note_at_position (self : BassCard.t) (string_idx fret : Z)
  : result BassCard.cell :=
  if (0 <=? string_idx)
     && (string_idx <? Z.of_nat (length (BassCard.fretboard self)))
     && (0 <=? fret) && (fret <=? FRETS)
  then
    row ← index (BassCard.fretboard self) (Z.to_nat string_idx);
    index row.2 (Z.to_nat fret)
  else Ok (NOT_IN_CHORD, "?").

(** ** class BassChordApp: the analysis and persistence steps *)

Inductive DisplayMode := STANDARD | EDUCATIONAL.

Global Instance NoteType_eq_dec : EqDecision NoteType.
Proof. solve_decision. Defined.

(** The dict written for one chord by [save_cards]: the values under
    ['symbol'], ['section'] and ['bass_note']. *)
Record chord_data := mk_chord_data {
  data_symbol : string;
  data_section : string;
  data_bass_note : string
}.

Module BassChordApp.

(** [re.findall(r'\S+', s)]: the maximal runs of characters that are not
    white space, from left to right. *)
Fixpoint findall_nonspace (s : string) : list string :=
  match s with
  | "" => []
  | String c s' =>
      if PyStr.isspace c then findall_nonspace s'
      else match s' with
           | "" => [String c ""]
           | String d _ =>
               if PyStr.isspace d then String c "" :: findall_nonspace s'
               else match findall_nonspace s' with
                    | h :: t => String c h :: t
                    | [] => [String c ""]
                    end
           end
  end.

(** [s[:-1]] *)
Fixpoint drop_last (s : string) : string :=
  match s with
  | "" => ""
  | String c s' => match s' with "" => "" | _ => String c (drop_last s') end
  end.

(** [s.endswith(c)] for one character. *)
Fixpoint endswith_char (c : ascii) (s : string) : bool :=
  match s with
  | "" => false
  | String b s' =>
      match s' with "" => bool_decide (b = c) | _ => endswith_char c s' end
  end.

(** [re.match(r'^\[.*\]$', line)] as a truth value: an opening bracket,
    characters other than the newline, a closing bracket, and then the end
    of the string or a single final newline. *)
Definition match_section_header (line : string) : bool :=
  match line with
  | String c rest =>
      if decide (c = "["%char) then
        let body :=
          if endswith_char "010" rest then drop_last rest else rest in
        endswith_char "]" body && negb (PyStr.contains (String "010" "") body)
      else false
  | "" => false
  end.

(** The loop over the tokens of one chord line. *)
Definition token_step (current_section : string) (song : Song.t)
    (token : string) : result Song.t :=
  if PyStr.truthy (PyStr.strip token)
  then Song.add_chord song token current_section
  else Ok song.

(** The body of the loop over the lines of the song text; the state is the
    song and the current section. *)
Definition line_step (st : Song.t * string) (line : string)
  : result (Song.t * string) :=
  let '(song, current_section) := st in
  let line := PyStr.strip line in
  if negb (PyStr.truthy line) then Ok (song, current_section)
  else if match_section_header line then
    Ok (song, PyStr.strip (drop_last (PyStr.slice_from 1%nat line)))
  else if PyStr.startswith "." line then
    let chord_line := PyStr.strip (PyStr.slice_from 1%nat line) in
    let chord_tokens := findall_nonspace chord_line in
    song' ← for_ chord_tokens (token_step current_section) song;
    Ok (song', current_section)
  else Ok (song, current_section).

(** [BassChordApp.analyze_chords] without the widgets: [title], [author]
    and [song_text] are what the entry fields and the text box hold,
    [string_count] what the string-count variable holds. *)
Definition analyze_chords (song : Song.t) (title author song_text : string)
    (string_count : Z) : result (Song.t * list BassCard.t) :=
  let song := Song.mk title author (Song.key song) [] in
  st ← for_ (PyStr.split "010" song_text) line_step (song, "");
  let song := st.1 in
  song ←
    (if negb (BassCard.key_truthy (Song.key song)) then
       k ← Song.detect_key (Song.chords song);
       Ok (Song.mk (Song.title song) (Song.author song) (Some k)
             (Song.chords song))
     else Ok song);
  cards ← mapM (fun chord => BassCard.init chord (Song.key song) string_count)
               (Song.chords song);
  Ok (song, cards).

(** [BassChordApp._get_marker_text] *)
Definition _get_marker_text (note_type : NoteType) (note_name : string)
    (mode : DisplayMode) : string :=
  match mode with
  | STANDARD =>
      if decide (note_type = BASS_NOTE) then "B"
      else if decide (note_type = CHORD_NOTE) then "X"
      else "."
  | EDUCATIONAL =>
      if decide (note_type = NOT_IN_CHORD) then "." else note_name
  end.

(** [BassChordApp._get_html_cell_class] *)
Definition _get_html_cell_class (note_type : NoteType) : string :=
  if decide (note_type = BASS_NOTE) then "bass-note"
  else if decide (note_type = CHORD_NOTE) then "chord-note"
  else "".

(** [BassChordApp._get_html_marker_text] *)
Definition _get_html_marker_text (note_type : NoteType) (note_name : string)
    (mode : DisplayMode) : string :=
  match mode with
  | STANDARD =>
      if decide (note_type = BASS_NOTE) then "B"
      else if decide (note_type = CHORD_NOTE) then "X"
      else "."
  | EDUCATIONAL =>
      if decide (note_type = NOT_IN_CHORD) then "." else note_name
  end.

(** The list of chord dicts built by [save_cards]. *)
Definition save_chords (cards : list BassCard.t) : list chord_data :=
  map (fun card =>
         mk_chord_data (Chord.symbol (BassCard.chord card))
                       (Chord.section (BassCard.chord card))
                       (Chord.bass_note (BassCard.chord card)))
      cards.

(** The loop of [load_cards] that rebuilds the chords: each chord is
    parsed again from its symbol and its bass note is then overwritten. *)
Definition load_chord (chords : list Chord.t) (d : chord_data)
  : result (list Chord.t) :=
  chord ← Chord.init (data_symbol d) (data_section d);
  let chord :=
    Chord.mk (Chord.symbol chord) (Chord.section chord) (Chord.root chord)
             (data_bass_note d) (Chord.suffix chord) in
  Ok (chords ++ [chord]).

(** The chords and the cards that [load_cards] rebuilds from the chord
    dicts, the key and the string count of the document. *)
Definition load_chords (data : list chord_data) (key : option string)
    (string_count : Z) : result (list Chord.t * list BassCard.t) :=
  chords ← for_ data load_chord [];
  cards ← mapM (fun chord => BassCard.init chord key string_count) chords;
  Ok (chords, cards).

End BassChordApp.

(** ** Vocabulary of the statements *)

(** The pitch class of a note name; an unknown name counts as 0. *)
Definition pitch_class (name : string) : Z := get NOTE_TO_PITCH name 0.

(** The root of a key string, ["C"] when the pattern does not match. *)
Definition key_root (k : string) : string := default "C" (re_match_root k).

Definition degree_semitones (chord : Chord.t) (k : string) : Z :=
  (pitch_class (Chord.root chord) - pitch_class (key_root k)) mod 12.

(** The formula of a suffix, the major triad for an unknown one. *)
Definition formula (suffix : string) : list Z :=
  default [0; 4; 7] (CHORD_FORMULAS !! suffix).

Definition chord_pitch_classes (chord : Chord.t) : list Z :=
  map (fun offset => (pitch_class (Chord.root chord) + offset) mod 12)
      (formula (Chord.suffix chord)).

(** The spelling policy: sharp names when the key contains [#] or [m], or
    the root contains [#]. *)
Definition sharp_spelling (k root : string) : bool :=
  PyStr.contains "#" k || PyStr.contains "m" k || PyStr.contains "#" root.

Definition spelling_table (k root : string) : gmap Z string :=
  if sharp_spelling k root then PITCH_TO_NOTE_SHARP else PITCH_TO_NOTE_FLAT.

(** The diatonic tables as the specification writes them. *)
Definition degree_table_major : gmap Z string :=
  list_to_map
    [(0, "I"); (2, "ii"); (4, "iii"); (5, "IV"); (7, "V"); (9, "vi");
     (11, "vii" +:+ degree_sign)].
Definition degree_table_minor : gmap Z string :=
  list_to_map
    [(0, "i"); (2, "ii" +:+ degree_sign); (4, "III"); (5, "iv"); (7, "v");
     (9, "VI"); (11, "VII")].

(** The role of a cell of pitch [p]; the bass note is tested first. *)
Definition role_of (bass : Z) (tones : list Z) (p : Z) : NoteType :=
  if decide (p = bass) then BASS_NOTE
  else if decide (p ∈ tones) then CHORD_NOTE
  else NOT_IN_CHORD.

Definition with_root (r : string) (c : Chord.t) : Chord.t :=
  Chord.mk (Chord.symbol c) (Chord.section c) r (Chord.bass_note c)
           (Chord.suffix c).

(** The chords of the examples. *)
Definition chord_C : Chord.t := Chord.mk "C" "" "C" "C" "".
Definition chord_G : Chord.t := Chord.mk "G" "" "G" "G" "".
Definition chord_B : Chord.t := Chord.mk "B" "" "B" "B" "".
Definition chord_Em : Chord.t := Chord.mk "Em" "" "E" "E" "m".
Definition chord_Am7 : Chord.t := Chord.mk "Am7" "" "A" "A" "m7".
Definition chord_slash : Chord.t := Chord.mk "/" "" "" "" "".

(** A degree is diatonic when it is one of the seven steps of the scale. *)
Definition diatonic (d : Z) : Prop :=
  d = 0 \/ d = 2 \/ d = 4 \/ d = 5 \/ d = 7 \/ d = 9 \/ d = 11.

(** The name of pitch class [p] under the spelling policy. *)
Definition note_name (k root : string) (p : Z) : string :=
  default "" (spelling_table k root !! p).

(** The cell of one fret of a string whose open pitch is [base]. *)
Definition cell_of (k root : string) (bass : Z) (tones : list Z)
    (base fret : Z) : BassCard.cell :=
  let p := (base + fret) mod 12 in
  (role_of bass tones p, note_name k root p).

(** The row of one string: its label and the cells of its frets. *)
Definition row_of (k root : string) (bass : Z) (tones : list Z)
    (s : string * Z) : string * list BassCard.cell :=
  (fst s, map (cell_of k root bass tones (snd s)) (range (FRETS + 1))).

(** The tuning of an instrument with 4 or 5 strings, highest string first. *)
Definition tuning_of (sc : Z) : list (string * Z) :=
  [("G", 55); ("D", 50); ("A", 45); ("E", 40)]
  ++ (if decide (sc = 5) then [("B", 35)] else []).

(** The pitch classes stored in a card: none for an empty root. *)
Definition note_pitches_of (chord : Chord.t) : list Z :=
  if decide (Chord.root chord = "") then [] else chord_pitch_classes chord.

(** The number of occurrences of [k] in [l]. *)
Definition count (k : string) (l : list string) : nat :=
  length (filter (fun y => y = k) l).

(** The distinct elements of [l] in order of first appearance. *)
Definition first_seen (l : list string) : list string :=
  fold_left (fun seen x => if decide (x ∈ seen) then seen else seen ++ [x])
            l [].

(** The non-empty roots of a chord sequence, in order. *)
Definition nonempty_roots (chords : list Chord.t) : list string :=
  filter (fun r => r <> "") (Chord.root <$> chords).

(** Some chord on root [r] has a suffix with ["m"] but neither ["maj"] nor
    ["dim"]. *)
Definition minor_evidence (r : string) (chords : list Chord.t) : Prop :=
  exists chord, chord ∈ chords /\ Chord.root chord = r /\
                Song.minor_like (Chord.suffix chord) = true.

(** The sequence [Em, C, B, Em, C, B, Em, C]. *)
Definition example_progression : list Chord.t :=
  [chord_Em; chord_C; chord_B; chord_Em; chord_C; chord_B; chord_Em; chord_C].

(** The chord [c] with its bass note replaced, as [load_cards] does. *)
Definition with_bass (b : string) (c : Chord.t) : Chord.t :=
  Chord.mk (Chord.symbol c) (Chord.section c) (Chord.root c) b
           (Chord.suffix c).

(** A chord as the program holds it: built by the constructor from some
    token, its bass note possibly overwritten afterwards. *)
Definition constructed (c : Chord.t) : Prop :=
  exists token section c0,
    Chord.init token section = Ok c0 /\ c = with_bass (Chord.bass_note c) c0.

(** No character of [s] is white space. *)
Fixpoint no_space (s : string) : Prop :=
  match s with
  | "" => True
  | String c s' => PyStr.isspace c = false /\ no_space s'
  end.

(** What a chord of an analysed text looks like: built by the constructor
    from a token that is not empty and holds no white space, which is its
    symbol, and filed under [section]. *)
Definition from_token (section : string) (c : Chord.t) : Prop :=
  exists token,
    token <> "" /\ no_space token /\
    Chord.init token section = Ok c /\ Chord.symbol c = token.

(** * Properties *)

(** ** Basic facts *)

Lemma truthy_true s : PyStr.truthy s = true <-> s <> "".
Proof. destruct s; simpl; split; congruence. Qed.

Lemma truthy_false s : PyStr.truthy s = false <-> s = "".
Proof. destruct s; simpl; split; congruence. Qed.

Lemma returns_Ok {A} (a : A) : returns (Ok a).
Proof. by exists a. Qed.

Lemma pitch_range r o : 0 <= (r + o) mod 12 < 12.
Proof. apply Z.mod_pos_bound. lia. Qed.

Lemma sharp_name p : 0 <= p < 12 -> is_Some (PITCH_TO_NOTE_SHARP !! p).
Proof.
  intros Hp.
  assert (p = 0 \/ p = 1 \/ p = 2 \/ p = 3 \/ p = 4 \/ p = 5 \/ p = 6 \/
          p = 7 \/ p = 8 \/ p = 9 \/ p = 10 \/ p = 11) as Hc by lia.
  repeat destruct Hc as [-> | Hc]; try subst p;
    eexists; vm_compute; reflexivity.
Qed.

Lemma flat_name p : 0 <= p < 12 -> is_Some (PITCH_TO_NOTE_FLAT !! p).
Proof.
  intros Hp.
  assert (p = 0 \/ p = 1 \/ p = 2 \/ p = 3 \/ p = 4 \/ p = 5 \/ p = 6 \/
          p = 7 \/ p = 8 \/ p = 9 \/ p = 10 \/ p = 11) as Hc by lia.
  repeat destruct Hc as [-> | Hc]; try subst p;
    eexists; vm_compute; reflexivity.
Qed.

Lemma spelling_name k root p :
  0 <= p < 12 -> is_Some (spelling_table k root !! p).
Proof.
  unfold spelling_table. destruct (sharp_spelling k root);
    auto using sharp_name, flat_name.
Qed.

Lemma subscript_Some `{Countable K} {V} (d : gmap K V) k v :
  d !! k = Some v -> subscript d k = Ok v.
Proof. unfold subscript. by intros ->. Qed.

(** A comprehension [[d[p] for p in l]] over keys that are all present. *)
Lemma mapM_subscript `{Countable K} {V} (d : gmap K V) (l : list K) :
  Forall (fun p => is_Some (d !! p)) l ->
  exists names, mapM (subscript d) l = Ok names /\
                Forall2 (fun p n => d !! p = Some n) l names.
Proof.
  induction 1 as [|p l [n Hn] _ (names & Hm & Hf)]; simpl.
  - exists []. split; [done | constructor].
  - exists (n :: names). rewrite (subscript_Some _ _ _ Hn). simpl.
    rewrite Hm. simpl. split; [done | by constructor].
Qed.

Lemma formula_of_eq chord :
  BassCard.formula_of chord = Ok (formula (Chord.suffix chord)).
Proof. reflexivity. Qed.

Lemma use_sharp_str chord k :
  BassCard.use_sharp chord (Some k) = Ok (sharp_spelling k (Chord.root chord)).
Proof.
  unfold BassCard.use_sharp, sharp_spelling. simpl.
  destruct (PyStr.contains "#" k); simpl; [done|].
  by destruct (PyStr.contains "m" k).
Qed.

Lemma get_chord_note_pitches_eq chord :
  Chord.root chord <> "" ->
  BassCard._get_chord_note_pitches chord = Ok (chord_pitch_classes chord).
Proof.
  intros Hr%truthy_true. unfold BassCard._get_chord_note_pitches.
  by rewrite Hr.
Qed.

Lemma get_chord_note_pitches_empty chord :
  Chord.root chord = "" -> BassCard._get_chord_note_pitches chord = Ok [].
Proof.
  intros Hr%truthy_false. unfold BassCard._get_chord_note_pitches.
  by rewrite Hr.
Qed.

Lemma chord_pitch_classes_range chord :
  Forall (fun p => 0 <= p < 12) (chord_pitch_classes chord).
Proof.
  apply Forall_forall. intros p (o & <- & _)%list_elem_of_In%in_map_iff.
  apply pitch_range.
Qed.

(** The note names for a key that is a string. *)
Lemma get_chord_notes_str chord k :
  Chord.root chord <> "" ->
  exists names,
    BassCard._get_chord_notes chord (Some k) = Ok names /\
    Forall2 (fun p n => spelling_table k (Chord.root chord) !! p = Some n)
            (chord_pitch_classes chord) names.
Proof.
  intros Hr%truthy_true. unfold BassCard._get_chord_notes.
  rewrite Hr, formula_of_eq, use_sharp_str. simpl.
  apply (mapM_subscript (spelling_table k (Chord.root chord))).
  eapply Forall_impl; [apply chord_pitch_classes_range|].
  intros p Hp. by apply spelling_name.
Qed.

Lemma get_chord_notes_empty_root chord k :
  Chord.root chord = "" ->
  BassCard._get_chord_notes chord (Some k) = Ok ["?"].
Proof.
  intros Hr%truthy_false. unfold BassCard._get_chord_notes. by rewrite Hr.
Qed.

(** The scale degree for a non-empty key string and a non-empty root. *)
Lemma get_scale_degree_str chord k :
  Chord.root chord <> "" -> k <> "" ->
  BassCard._get_scale_degree chord (Some k) =
  BassCard.degree_label
    (if Song.minor_like k then SCALE_DEGREES_MINOR else SCALE_DEGREES_MAJOR)
    (degree_semitones chord k).
Proof.
  intros Hr%truthy_true Hk%truthy_true.
  unfold BassCard._get_scale_degree, Song.minor_like. simpl.
  rewrite Hr, Hk. simpl.
  destruct (PyStr.contains "m" k); simpl; [|done].
  destruct (PyStr.contains "maj" k); simpl; [done|].
  by destruct (PyStr.contains "dim" k).
Qed.

Lemma get_scale_degree_unknown chord key :
  key = None \/ key = Some "" \/ Chord.root chord = "" ->
  BassCard._get_scale_degree chord key = Ok "?".
Proof.
  unfold BassCard._get_scale_degree.
  intros [-> | [-> | Hr%truthy_false]]; simpl; [done..|].
  rewrite Hr. by rewrite orb_true_r.
Qed.

Lemma formula_length s : (3 <= length (formula s))%nat.
Proof.
  unfold formula. destruct (CHORD_FORMULAS !! s) as [f|] eqn:E; simpl; [|lia].
  apply elem_of_list_to_map_2 in E.
  repeat (apply elem_of_cons in E as [E | E];
          [injection E as -> ->; simpl; lia|]).
  by apply elem_of_nil in E.
Qed.

Lemma chord_pitch_classes_length chord :
  length (chord_pitch_classes chord) = length (formula (Chord.suffix chord)).
Proof. unfold chord_pitch_classes. by rewrite length_map. Qed.

(** ** Scale degree *)

(** C1, as the specification states it, fails: for key ["Am"] and root
    ["C"] the code returns ["? (3)"], with a space after the question mark,
    and not ["?(3)"]. *)
Lemma scale_degree_marker_has_space :
  Chord.root chord_C <> "" /\ "Am" <> "" /\
  ~ diatonic (degree_semitones chord_C "Am") /\
  BassCard._get_scale_degree chord_C (Some "Am") = Ok "? (3)" /\
  BassCard._get_scale_degree chord_C (Some "Am") <> Ok "?(3)".
Proof.
  repeat split; try discriminate.
  unfold diatonic. vm_compute. intros H.
  repeat (destruct H as [H | H]; [discriminate H|]). discriminate H.
Qed.

(** C1, amended: with a non-empty root and a non-empty key, a degree outside
    {0,2,4,5,7,9,11} yields exactly ["? ("], the decimal degree and [")"]
    (the marker has a space after the question mark); key ["Am"] with root
    ["C"] gives ["? (3)"]. *)
Theorem scale_degree_non_diatonic chord k :
  Chord.root chord <> "" -> k <> "" ->
  ~ diatonic (degree_semitones chord k) ->
  BassCard._get_scale_degree chord (Some k) =
    Ok ("? (" +:+ PyStr.str (degree_semitones chord k) +:+ ")") /\
  BassCard._get_scale_degree chord_C (Some "Am") = Ok "? (3)".
Proof.
  intros Hr Hk Hd. split; [|reflexivity].
  rewrite get_scale_degree_str by done.
  unfold BassCard.degree_label, diatonic in *.
  repeat case_decide; try done; exfalso; apply Hd; tauto.
Qed.

Lemma scale_degree_non_diatonic_witness :
  BassCard._get_scale_degree chord_C (Some "Am") =
    Ok ("? (" +:+ PyStr.str (degree_semitones chord_C "Am") +:+ ")") /\
  BassCard._get_scale_degree chord_C (Some "Am") = Ok "? (3)".
Proof.
  apply (scale_degree_non_diatonic chord_C "Am"); try discriminate.
  unfold diatonic. vm_compute. intros H.
  repeat (destruct H as [H | H]; [discriminate H|]). discriminate H.
Defined.

(** C9: with a non-empty root and a non-empty key, a diatonic degree is
    labelled from the major table, or from the minor table when the key
    contains ["m"] but neither ["maj"] nor ["dim"]; key ["C"] with root
    ["G"] has degree 7 and label ["V"]; an absent or empty key, or an empty
    root, gives ["?"]. *)
Theorem scale_degree_diatonic chord k :
  Chord.root chord <> "" -> k <> "" ->
  diatonic (degree_semitones chord k) ->
  (exists label,
      (if Song.minor_like k then degree_table_minor else degree_table_major)
        !! degree_semitones chord k = Some label /\
      BassCard._get_scale_degree chord (Some k) = Ok label) /\
  (degree_semitones chord_G "C" = 7 /\
   BassCard._get_scale_degree chord_G (Some "C") = Ok "V") /\
  (forall c key,
      key = None \/ key = Some "" \/ Chord.root c = "" ->
      BassCard._get_scale_degree c key = Ok "?").
Proof.
  intros Hr Hk Hd. split; [|split; [by vm_compute|]].
  - rewrite get_scale_degree_str by done.
    destruct Hd as [Hd | [Hd | [Hd | [Hd | [Hd | [Hd | Hd]]]]]];
      rewrite Hd; destruct (Song.minor_like k);
      eexists; split; vm_compute; reflexivity.
  - apply get_scale_degree_unknown.
Qed.

Lemma scale_degree_diatonic_witness :
  exists label,
    degree_table_major !! 7 = Some label /\
    BassCard._get_scale_degree chord_G (Some "C") = Ok label.
Proof.
  assert (Chord.root chord_G <> "") as Hr by discriminate.
  assert ("C" <> "") as Hk by discriminate.
  assert (diatonic (degree_semitones chord_G "C")) as Hd
    by (unfold diatonic; vm_compute; tauto).
  exact (proj1 (scale_degree_diatonic chord_G "C" Hr Hk Hd)).
Defined.

(** ** An absent key *)

(** C2: the claim is that every engine function returns for every input,
    an absent key included.  [_get_scale_degree] tests [not self.key] and
    returns ["?"], but [_get_chord_notes] and [_generate_fretboard] evaluate
    ['#' in self.key] unguarded: with the key [None] the constructor of
    [BassCard] raises for every chord and string count, with [TypeError]
    for the chord C on four strings. *)
Theorem bass_card_absent_key_raises :
  BassCard._get_scale_degree chord_C None = Ok "?" /\
  BassCard._get_chord_notes chord_C None = Raise TypeError /\
  BassCard.init chord_C None 4 = Raise TypeError /\
  forall chord string_count,
    exists e, BassCard.init chord None string_count = Raise e.
Proof.
  repeat split.
  intros chord sc. unfold BassCard.init.
  rewrite (get_scale_degree_unknown chord None) by auto. simpl.
  destruct (decide (Chord.root chord = "")) as [Hr | Hr].
  - apply truthy_false in Hr as Ht.
    unfold BassCard._get_chord_notes, BassCard._get_chord_note_pitches.
    rewrite Ht. simpl. unfold BassCard._generate_fretboard, subscript.
    destruct (BASS_TUNINGS !! sc) as [tuning|] eqn:E; simpl; [|by eexists].
    apply elem_of_list_to_map_2 in E.
    repeat (apply elem_of_cons in E as [E | E];
            [injection E as -> ->; by eexists|]).
    by apply elem_of_nil in E.
  - apply truthy_true in Hr as Ht.
    unfold BassCard._get_chord_notes. rewrite Ht. simpl. by eexists.
Qed.

(** ** Chord tones *)

(** C3, as the specification states it, fails: with the empty key and the
    root ["C"] the chord tones are the computed names, not [["?"]]. *)
Lemma chord_tones_empty_key_computed :
  Chord.root chord_C <> "" /\
  BassCard._get_scale_degree chord_C (Some "") = Ok "?" /\
  BassCard._get_chord_notes chord_C (Some "") = Ok ["C"; "E"; "G"] /\
  BassCard._get_chord_notes chord_C (Some "") <> Ok ["?"].
Proof. repeat split; discriminate. Qed.

(** C3, amended: for a chord with a non-empty root and the empty key
    string, the scale degree is ["?"] but the chord tones are the computed
    note names, one per formula entry, spelled with sharps exactly when the
    root contains [#]; the single name ["?"] is returned when the root is
    empty. *)
Theorem chord_tones_empty_key chord :
  Chord.root chord <> "" ->
  BassCard._get_scale_degree chord (Some "") = Ok "?" /\
  (exists names,
      BassCard._get_chord_notes chord (Some "") = Ok names /\
      names <> ["?"] /\
      length names = length (formula (Chord.suffix chord)) /\
      Forall2
        (fun p n =>
           (if PyStr.contains "#" (Chord.root chord)
            then PITCH_TO_NOTE_SHARP else PITCH_TO_NOTE_FLAT) !! p = Some n)
        (chord_pitch_classes chord) names) /\
  (forall c k, Chord.root c = "" ->
               BassCard._get_chord_notes c (Some k) = Ok ["?"]).
Proof.
  intros Hr. split; [by apply get_scale_degree_unknown; auto|].
  split; [|apply get_chord_notes_empty_root].
  destruct (get_chord_notes_str chord "" Hr) as (names & Hn & Hf).
  exists names. split; [done|].
  assert (length names = length (formula (Chord.suffix chord))) as Hlen.
  { rewrite <- (Forall2_length _ _ _ Hf). apply chord_pitch_classes_length. }
  split; [|split; [done|exact Hf]].
  intros ->. pose proof (formula_length (Chord.suffix chord)).
  simpl in Hlen. lia.
Qed.

Lemma chord_tones_empty_key_witness :
  exists names,
    BassCard._get_chord_notes chord_C (Some "") = Ok names /\
    names <> ["?"] /\
    length names = length (formula (Chord.suffix chord_C)) /\
    Forall2
      (fun p n =>
         (if PyStr.contains "#" (Chord.root chord_C)
          then PITCH_TO_NOTE_SHARP else PITCH_TO_NOTE_FLAT) !! p = Some n)
      (chord_pitch_classes chord_C) names.
Proof.
  assert (Chord.root chord_C <> "") as Hr by discriminate.
  exact (proj1 (proj2 (chord_tones_empty_key chord_C Hr))).
Defined.

(** C7: with a non-empty root and a non-empty key, the formula is looked up
    by suffix with the major triad as fallback, the pitch classes are
    (pitch class of the root + offset) mod 12 in formula order, one name per
    entry, and the names come from the sharp table when the key contains
    [#] or [m] or the root contains [#], else from the flat table; root
    ["A"] with suffix ["m7"] under key ["Em"] gives [9;0;4;7] and
    A, C, E, G. *)
Theorem chord_tones_spelled chord k :
  Chord.root chord <> "" -> k <> "" ->
  let offsets := default [0; 4; 7] (CHORD_FORMULAS !! Chord.suffix chord) in
  let pitches :=
    map (fun offset => (get NOTE_TO_PITCH (Chord.root chord) 0 + offset) mod 12)
        offsets in
  let table :=
    if PyStr.contains "#" k || PyStr.contains "m" k
       || PyStr.contains "#" (Chord.root chord)
    then PITCH_TO_NOTE_SHARP else PITCH_TO_NOTE_FLAT in
  BassCard._get_chord_note_pitches chord = Ok pitches /\
  (exists names,
      BassCard._get_chord_notes chord (Some k) = Ok names /\
      length names = length offsets /\
      Forall2 (fun p n => table !! p = Some n) pitches names) /\
  (BassCard._get_chord_note_pitches chord_Am7 = Ok [9; 0; 4; 7] /\
   BassCard._get_chord_notes chord_Am7 (Some "Em") = Ok ["A"; "C"; "E"; "G"]).
Proof.
  intros Hr Hk offsets pitches table.
  split; [by apply get_chord_note_pitches_eq|]. split; [|by vm_compute].
  destruct (get_chord_notes_str chord k Hr) as (names & Hn & Hf).
  exists names. split; [done|]. split; [|exact Hf].
  rewrite <- (Forall2_length _ _ _ Hf). apply chord_pitch_classes_length.
Qed.

Lemma chord_tones_spelled_witness :
  BassCard._get_chord_note_pitches chord_Am7 = Ok [9; 0; 4; 7] /\
  exists names,
    BassCard._get_chord_notes chord_Am7 (Some "Em") = Ok names /\
    length names = 4%nat /\
    Forall2 (fun p n => PITCH_TO_NOTE_SHARP !! p = Some n) [9; 0; 4; 7] names.
Proof.
  assert (Chord.root chord_Am7 <> "") as Hr by discriminate.
  assert ("Em" <> "") as Hk by discriminate.
  pose proof (chord_tones_spelled chord_Am7 "Em" Hr Hk) as H.
  split; [exact (proj1 H) | exact (proj1 (proj2 H))].
Defined.

(** ** Fretboard *)

Lemma for_append {A B} (f : A -> B) (body : list B -> A -> result (list B))
    (l : list A) :
  (forall s a, a ∈ l -> body s a = Ok (s ++ [f a])) ->
  forall s, for_ l body s = Ok (s ++ map f l).
Proof.
  induction l as [|a l IH]; intros Hb s; simpl.
  - by rewrite app_nil_r.
  - rewrite Hb by left. simpl. rewrite IH.
    + by rewrite <- app_assoc.
    + intros s' a' Ha'. apply Hb. by right.
Qed.

Lemma note_name_lookup k root p :
  0 <= p < 12 -> spelling_table k root !! p = Some (note_name k root p).
Proof.
  intros Hp. unfold note_name.
  by destruct (spelling_name k root p Hp) as [n ->].
Qed.

Lemma fret_step_str chord k tones bass base row fret :
  BassCard.fret_step chord (Some k) tones bass base row fret =
  Ok (row ++ [cell_of k (Chord.root chord) bass tones base fret]).
Proof.
  unfold BassCard.fret_step, cell_of, role_of. rewrite use_sharp_str. simpl.
  pose proof (note_name_lookup k (Chord.root chord) _ (pitch_range base fret))
    as Hn.
  unfold spelling_table in Hn.
  destruct (sharp_spelling k (Chord.root chord));
    rewrite (subscript_Some _ _ _ Hn); simpl; by repeat case_decide.
Qed.

Lemma string_step_str chord k tones bass grid s :
  BassCard.string_step chord (Some k) tones bass grid s =
  Ok (grid ++ [row_of k (Chord.root chord) bass tones s]).
Proof.
  destruct s as [name base]. unfold BassCard.string_step, row_of.
  rewrite (for_append (cell_of k (Chord.root chord) bass tones base)).
  - done.
  - intros row fret _. apply fret_step_str.
Qed.

Lemma generate_fretboard_str chord k sc tones bass tuning :
  BASS_TUNINGS !! sc = Some tuning ->
  BassCard._generate_fretboard chord (Some k) sc tones bass =
  Ok (map (row_of k (Chord.root chord) bass tones) tuning).
Proof.
  intros Ht. unfold BassCard._generate_fretboard.
  rewrite (subscript_Some _ _ _ Ht). simpl.
  rewrite (for_append (row_of k (Chord.root chord) bass tones)).
  - done.
  - intros grid s _. apply string_step_str.
Qed.

Lemma tuning_lookup sc :
  sc = 4 \/ sc = 5 -> BASS_TUNINGS !! sc = Some (tuning_of sc).
Proof. by intros [-> | ->]. Qed.

Lemma get_chord_note_pitches_of chord :
  BassCard._get_chord_note_pitches chord = Ok (note_pitches_of chord).
Proof.
  unfold note_pitches_of. case_decide.
  - by apply get_chord_note_pitches_empty.
  - by apply get_chord_note_pitches_eq.
Qed.

Lemma get_scale_degree_returns chord k :
  returns (BassCard._get_scale_degree chord (Some k)).
Proof.
  destruct (decide (k = "")) as [-> | Hk];
    [rewrite get_scale_degree_unknown by auto; apply returns_Ok|].
  destruct (decide (Chord.root chord = "")) as [Hr | Hr];
    [rewrite get_scale_degree_unknown by auto; apply returns_Ok|].
  rewrite get_scale_degree_str by done. unfold BassCard.degree_label.
  destruct (Song.minor_like k); repeat case_decide; apply returns_Ok.
Qed.

Lemma get_chord_notes_returns chord k :
  returns (BassCard._get_chord_notes chord (Some k)).
Proof.
  destruct (decide (Chord.root chord = "")) as [Hr | Hr].
  - rewrite get_chord_notes_empty_root by done. apply returns_Ok.
  - destruct (get_chord_notes_str chord k Hr) as (names & -> & _).
    apply returns_Ok.
Qed.

(** With a key that is a string and 4 or 5 strings the constructor
    returns, and its fields are these. *)
Lemma init_str chord k sc :
  sc = 4 \/ sc = 5 ->
  exists degree names,
    BassCard._get_scale_degree chord (Some k) = Ok degree /\
    BassCard._get_chord_notes chord (Some k) = Ok names /\
    BassCard.init chord (Some k) sc =
    Ok (BassCard.mk chord (Some k) sc degree names (note_pitches_of chord)
          (pitch_class (Chord.bass_note chord))
          (map (row_of k (Chord.root chord)
                  (pitch_class (Chord.bass_note chord))
                  (note_pitches_of chord))
               (tuning_of sc))).
Proof.
  intros Hsc.
  destruct (get_scale_degree_returns chord k) as [degree Hd].
  destruct (get_chord_notes_returns chord k) as [names Hn].
  exists degree, names. split; [done|]. split; [done|].
  unfold BassCard.init.
  rewrite Hd, Hn, get_chord_note_pitches_of. simpl.
  by rewrite (generate_fretboard_str _ _ _ _ _ _ (tuning_lookup sc Hsc)).
Qed.

Lemma map_lookup {A B} (f : A -> B) (l : list A) (i : nat) :
  map f l !! i = f <$> (l !! i).
Proof. apply (list_lookup_fmap f). Qed.

Lemma range_lookup (n : Z) (i : nat) :
  (i < Z.to_nat n)%nat -> range n !! i = Some (Z.of_nat i).
Proof.
  intros Hi. unfold range. rewrite map_lookup, lookup_seq_lt by done. done.
Qed.

(** C8: for every chord, key and string count in {4,5}, the grid has one
    row per string of the tuning, highest string first; each row has the 6
    cells of frets 0 to 5 in ascending order with pitch (open pitch + fret)
    mod 12; a cell is the bass note if its pitch is the bass pitch class,
    else a chord note if its pitch is among the chord-tone pitch classes,
    else not in the chord; for Am7 on 4 strings the open G-string cell is a
    chord note and the cell at fret 2 of the G string is the bass note. *)
Theorem fretboard_grid chord k sc :
  sc = 4 \/ sc = 5 ->
  (exists card tuning,
      BassCard.init chord (Some k) sc = Ok card /\
      BASS_TUNINGS !! sc = Some tuning /\
      tuning = [("G", 55); ("D", 50); ("A", 45); ("E", 40)]
               ++ (if decide (sc = 5) then [("B", 35)] else []) /\
      BassCard.bass_pitch card = get NOTE_TO_PITCH (Chord.bass_note chord) 0 /\
      BassCard._get_chord_note_pitches chord
        = Ok (BassCard.note_pitches card) /\
      length (BassCard.fretboard card) = length tuning /\
      forall (i : nat) label open,
        tuning !! i = Some (label, open) ->
        exists row,
          BassCard.fretboard card !! i = Some (label, row) /\
          length row = 6%nat /\
          forall fret : nat,
            (fret <= 5)%nat ->
            exists name,
              row !! fret =
                Some (role_of (BassCard.bass_pitch card)
                              (BassCard.note_pitches card)
                              ((open + Z.of_nat fret) mod 12),
                      name)) /\
  (exists card row,
      BassCard.init chord_Am7 (Some k) 4 = Ok card /\
      BassCard.bass_pitch card = 9 /\
      BassCard.note_pitches card = [9; 0; 4; 7] /\
      BassCard.fretboard card !! 0%nat = Some ("G", row) /\
      fst <$> row !! 0%nat = Some CHORD_NOTE /\
      fst <$> row !! 2%nat = Some BASS_NOTE).
Proof.
  intros Hsc. split.
  - destruct (init_str chord k sc Hsc) as (degree & names & _ & _ & Hi).
    eexists _, (tuning_of sc). split; [exact Hi|].
    cbn [BassCard.bass_pitch BassCard.note_pitches BassCard.fretboard].
    split; [by apply tuning_lookup|]. split; [done|]. split; [done|].
    split; [apply get_chord_note_pitches_of|].
    split; [by rewrite length_map|].
    intros i label open Hl. eexists. split; [|split].
    + rewrite map_lookup, Hl. reflexivity.
    + reflexivity.
    + intros fret Hf. eexists.
      rewrite map_lookup, range_lookup by (unfold FRETS; lia). reflexivity.
  - destruct (init_str chord_Am7 k 4) as (degree & names & _ & _ & Hi);
      [by left|].
    eexists _, _. split; [exact Hi|]. by vm_compute.
Qed.

Lemma fretboard_grid_witness :
  exists card row,
    BassCard.init chord_Am7 (Some "Am") 4 = Ok card /\
    BassCard.bass_pitch card = 9 /\
    BassCard.note_pitches card = [9; 0; 4; 7] /\
    BassCard.fretboard card !! 0%nat = Some ("G", row) /\
    fst <$> row !! 0%nat = Some CHORD_NOTE /\
    fst <$> row !! 2%nat = Some BASS_NOTE.
Proof.
  assert (4 = 4 \/ 4 = 5) as Hsc by (left; reflexivity).
  exact (proj2 (fretboard_grid chord_Am7 "Am" 4 Hsc)).
Defined.

(** ** Names outside the note table *)

Lemma pitch_class_unknown name :
  NOTE_TO_PITCH !! name = None -> pitch_class name = 0.
Proof. unfold pitch_class, get. by intros ->. Qed.

(** C10, as stated, fails for the empty root, which is outside the note
    table too: the card of the chord parsed from ["/"] has no chord-tone
    pitch classes and the degree ["?"], where the root C gives [0;4;7] and,
    in the key of C, the degree ["I"]. *)
Lemma empty_root_is_not_C :
  NOTE_TO_PITCH !! Chord.root chord_slash = None /\
  Chord.init "/" "" = Ok chord_slash /\
  BassCard._get_chord_note_pitches chord_slash = Ok [] /\
  BassCard._get_chord_note_pitches (with_root "C" chord_slash) = Ok [0; 4; 7] /\
  BassCard._get_scale_degree chord_slash (Some "C") = Ok "?" /\
  BassCard._get_scale_degree (with_root "C" chord_slash) (Some "C") = Ok "I".
Proof. repeat split. Qed.

(** C10, amended: a bass note outside the note table has bass pitch class
    0; a non-empty root outside the table has its chord-tone pitch classes
    computed from root pitch 0 and its scale degree computed as for the
    root C; a key whose root is not matched or is outside the table has the
    scale degree computed as for the key root C.  (An empty root has no
    chord-tone pitch classes and the degree ["?"].) *)
Theorem unknown_names_count_as_C chord k sc :
  sc = 4 \/ sc = 5 ->
  exists card,
    BassCard.init chord (Some k) sc = Ok card /\
    (NOTE_TO_PITCH !! Chord.bass_note chord = None ->
     BassCard.bass_pitch card = 0) /\
    (Chord.root chord <> "" -> NOTE_TO_PITCH !! Chord.root chord = None ->
     BassCard.note_pitches card =
       map (fun offset => (0 + offset) mod 12) (formula (Chord.suffix chord)) /\
     BassCard._get_chord_note_pitches (with_root "C" chord) =
       Ok (BassCard.note_pitches card) /\
     BassCard._get_scale_degree (with_root "C" chord) (Some k) =
       Ok (BassCard.scale_degree card)) /\
    (Chord.root chord <> "" -> k <> "" ->
     re_match_root k = None \/ NOTE_TO_PITCH !! key_root k = None ->
     BassCard.degree_label
       (if Song.minor_like k then SCALE_DEGREES_MINOR else SCALE_DEGREES_MAJOR)
       ((pitch_class (Chord.root chord) - pitch_class "C") mod 12) =
     Ok (BassCard.scale_degree card)).
Proof.
  intros Hsc.
  destruct (init_str chord k sc Hsc) as (degree & names & Hd & _ & Hi).
  eexists. split; [exact Hi|].
  cbn [BassCard.bass_pitch BassCard.note_pitches BassCard.scale_degree].
  split; [apply pitch_class_unknown|]. split.
  - intros Hr Hn. apply pitch_class_unknown in Hn.
    assert (note_pitches_of chord =
            map (fun offset => (0 + offset) mod 12)
                (formula (Chord.suffix chord)))
      as Hp.
    { unfold note_pitches_of, chord_pitch_classes. rewrite Hn. by case_decide. }
    split; [exact Hp|]. split.
    + rewrite get_chord_note_pitches_eq by done. by rewrite Hp.
    + rewrite <- Hd. destruct (decide (k = "")) as [-> | Hk].
      * by rewrite !get_scale_degree_unknown by auto.
      * rewrite !get_scale_degree_str by done.
        unfold degree_semitones. cbn [with_root Chord.root]. by rewrite Hn.
  - intros Hr Hk Hkey. rewrite <- Hd, get_scale_degree_str by done.
    unfold degree_semitones.
    assert (pitch_class (key_root k) = pitch_class "C") as ->; [|done].
    destruct Hkey as [Hm | Hm].
    + unfold key_root. by rewrite Hm.
    + by rewrite (pitch_class_unknown _ Hm).
Qed.

Lemma unknown_names_count_as_C_witness :
  exists card,
    BassCard.init (Chord.mk "Hm/x" "" "H" "x" "m") (Some "E#m") 4 = Ok card /\
    BassCard.bass_pitch card = 0 /\
    BassCard.note_pitches card = [0; 3; 7] /\
    BassCard.scale_degree card = "i".
Proof.
  destruct (unknown_names_count_as_C (Chord.mk "Hm/x" "" "H" "x" "m") "E#m" 4)
    as (card & Hi & Hb & Hr & Hk); [left; reflexivity|].
  exists card. split; [exact Hi|]. split; [apply Hb; reflexivity|].
  split.
  - apply Hr; [discriminate | reflexivity].
  - assert (Ok (A:=string) "i" = Ok (BassCard.scale_degree card)) as H.
    { apply Hk; [discriminate | discriminate | right; reflexivity]. }
    by injection H.
Defined.

(** ** Chord symbols *)

Section strings.
Implicit Types (c b : ascii) (s pre rest : string).

Lemma contains_char_cons c b s :
  PyStr.contains (String c "") (String b s) =
  bool_decide (c = b) || PyStr.contains (String c "") s.
Proof. simpl. by repeat case_decide; case_bool_decide. Qed.

Lemma contains_char_app c pre rest :
  PyStr.contains (String c "") (pre +:+ rest) =
  PyStr.contains (String c "") pre || PyStr.contains (String c "") rest.
Proof.
  induction pre as [|b pre IH].
  - done.
  - change (String b pre +:+ rest) with (String b (pre +:+ rest)).
    rewrite !contains_char_cons, IH. by rewrite orb_assoc.
Qed.

Lemma split_nonempty c s : exists h t, PyStr.split c s = h :: t.
Proof.
  induction s as [|b s (h & t & IH)]; simpl; [by eexists _, _|].
  case_decide; [by eexists _, _|]. rewrite IH. by eexists _, _.
Qed.

(** Without the separator the string is the only part. *)
Lemma split_no_sep c s :
  PyStr.contains (String c "") s = false -> PyStr.split c s = [s].
Proof.
  induction s as [|b s IH]; [done|].
  rewrite contains_char_cons. intros [Hb Hs]%orb_false_elim.
  apply bool_decide_eq_false in Hb. simpl.
  rewrite decide_False by congruence. by rewrite IH.
Qed.

(** The first part ends at the first separator. *)
Lemma split_app c pre rest :
  PyStr.contains (String c "") pre = false ->
  PyStr.split c (pre +:+ String c rest) = pre :: PyStr.split c rest.
Proof.
  induction pre as [|b pre IH]; intros Hp.
  - simpl. by rewrite decide_True.
  - rewrite contains_char_cons in Hp.
    apply orb_false_elim in Hp as [Hb Hp].
    apply bool_decide_eq_false in Hb.
    change (String b pre +:+ String c rest)
      with (String b (pre +:+ String c rest)).
    simpl. rewrite decide_False by congruence. by rewrite IH.
Qed.

(** A string with the character splits at its first occurrence. *)
Lemma first_occurrence c s :
  PyStr.contains (String c "") s = true ->
  exists pre rest,
    s = pre +:+ String c rest /\ PyStr.contains (String c "") pre = false.
Proof.
  induction s as [|b s IH]; [done|].
  rewrite contains_char_cons. destruct (decide (c = b)) as [-> | Hb].
  - intros _. by exists "", s.
  - rewrite bool_decide_eq_false_2 by done. simpl.
    intros (pre & rest & -> & Hp)%IH. exists (String b pre), rest.
    split; [done|]. rewrite contains_char_cons, Hp.
    by rewrite bool_decide_eq_false_2.
Qed.

(** The text up to the next separator, and what follows it. *)
Lemma next_segment c s :
  exists seg tail more,
    s = seg +:+ tail /\
    PyStr.contains (String c "") seg = false /\
    (tail = "" \/ exists t, tail = String c t) /\
    PyStr.split c s = seg :: more.
Proof.
  destruct (PyStr.contains (String c "") s) eqn:Hs.
  - destruct (first_occurrence c s Hs) as (pre & rest & -> & Hp).
    exists pre, (String c rest), (PyStr.split c rest).
    split; [done|]. split; [done|]. split; [by eauto|]. by apply split_app.
  - exists s, "", []. split; [|split; [done|split; [by left|]]].
    + clear. induction s as [|b s IH]; [done|].
      change (String b s +:+ "") with (String b (s +:+ "")). by rewrite <- IH.
    + by apply split_no_sep.
Qed.

Lemma lstrip_contains c s :
  PyStr.isspace c = false ->
  PyStr.contains (String c "") (PyStr.lstrip s) =
  PyStr.contains (String c "") s.
Proof.
  intros Hc. induction s as [|b s IH]; [done|].
  cbn [PyStr.lstrip]. destruct (PyStr.isspace b) eqn:Hb; [|done].
  rewrite IH, contains_char_cons.
  rewrite bool_decide_eq_false_2; [done | congruence].
Qed.

Lemma rstrip_contains c s :
  PyStr.isspace c = false ->
  PyStr.contains (String c "") (PyStr.rstrip s) =
  PyStr.contains (String c "") s.
Proof.
  intros Hc. induction s as [|b s IH]; [done|].
  rewrite contains_char_cons, <- IH. cbn [PyStr.rstrip].
  destruct (PyStr.rstrip s) as [|b' r] eqn:Hr.
  - destruct (PyStr.isspace b) eqn:Hb.
    + rewrite bool_decide_eq_false_2; [done | congruence].
    + by rewrite contains_char_cons.
  - by rewrite contains_char_cons.
Qed.

Lemma strip_contains c s :
  PyStr.isspace c = false ->
  PyStr.contains (String c "") (PyStr.strip s) =
  PyStr.contains (String c "") s.
Proof.
  intros Hc. unfold PyStr.strip.
  by rewrite rstrip_contains, lstrip_contains.
Qed.

(** A stripped string does not begin with white space. *)
Lemma lstrip_head s c r :
  PyStr.lstrip s = String c r -> PyStr.isspace c = false.
Proof.
  induction s as [|b s IH]; [done|]. cbn [PyStr.lstrip].
  destruct (PyStr.isspace b) eqn:Hb; [done|]. congruence.
Qed.

Lemma rstrip_keeps_head c s :
  PyStr.isspace c = false ->
  exists r, PyStr.rstrip (String c s) = String c r.
Proof.
  intros Hc. cbn [PyStr.rstrip]. rewrite Hc.
  destruct (PyStr.rstrip s); by eexists.
Qed.

Lemma rstrip_head s c r :
  PyStr.rstrip s = String c r -> exists s', s = String c s'.
Proof.
  destruct s as [|b s]; [done|]. cbn [PyStr.rstrip].
  destruct (PyStr.rstrip s); [destruct (PyStr.isspace b)|];
    intros [= <- _]; by eexists.
Qed.

Lemma strip_head s c r :
  PyStr.strip s = String c r -> PyStr.isspace c = false.
Proof.
  unfold PyStr.strip. intros (s' & Hs)%rstrip_head.
  by eapply lstrip_head.
Qed.

Lemma strip_keeps_head c s :
  PyStr.isspace c = false -> exists r, PyStr.strip (String c s) = String c r.
Proof.
  intros Hc. unfold PyStr.strip. cbn [PyStr.lstrip]. rewrite Hc.
  by apply rstrip_keeps_head.
Qed.

End strings.

Lemma re_match_root_nonempty s r : re_match_root s = Some r -> r <> "".
Proof.
  destruct s as [|c [|d s]]; simpl; [done|..];
    repeat case_match; by intros [= <-].
Qed.

Lemma root_suffix_nonempty chord_part :
  chord_part <> "" -> (Chord.root_suffix chord_part).1 <> "".
Proof.
  intros Hc. unfold Chord.root_suffix.
  destruct (re_match_root chord_part) as [r|] eqn:Hm; simpl.
  - by eapply re_match_root_nonempty.
  - by destruct chord_part.
Qed.

(** A symbol without a slash: the bass note is the root. *)
Lemma parse_no_slash symbol section :
  PyStr.contains "/" symbol = false ->
  Chord.parse symbol section =
  Ok (Chord.mk symbol section (Chord.root_suffix symbol).1
        (Chord.root_suffix symbol).1 (Chord.root_suffix symbol).2).
Proof.
  intros Hs. unfold Chord.parse. rewrite Hs. simpl.
  by destruct (Chord.root_suffix symbol).
Qed.

(** A symbol with a slash, cut at the first one: [seg] is the second part
    of the split. *)
Lemma parse_slash pre rest seg more section :
  PyStr.contains "/" pre = false ->
  PyStr.split "/" rest = seg :: more ->
  Chord.parse (pre +:+ String "/" rest) section =
  Ok (Chord.mk (pre +:+ String "/" rest) section
        (Chord.root_suffix (PyStr.strip pre)).1
        (if PyStr.truthy (PyStr.strip seg) then PyStr.strip seg
         else (Chord.root_suffix (PyStr.strip pre)).1)
        (Chord.root_suffix (PyStr.strip pre)).2).
Proof.
  intros Hp Hr. unfold Chord.parse.
  rewrite contains_char_app, contains_char_cons, bool_decide_eq_true_2 by done.
  rewrite orb_true_r, split_app, Hr by done. simpl.
  by destruct (Chord.root_suffix (PyStr.strip pre)).
Qed.

(** [Chord.parse] returns for every symbol. *)
Lemma parse_returns symbol section : returns (Chord.parse symbol section).
Proof.
  destruct (PyStr.contains "/" symbol) eqn:Hs.
  - destruct (first_occurrence _ _ Hs) as (pre & rest & -> & Hp).
    destruct (split_nonempty "/" rest) as (seg & more & Hr).
    rewrite (parse_slash _ _ _ _ _ Hp Hr). apply returns_Ok.
  - rewrite parse_no_slash by done. apply returns_Ok.
Qed.

(** C4, as the specification states it, fails: for ["C/E/G"] the bass note
    is ["E"], the text between the first two slashes, and not ["E/G"]. *)
Lemma bass_note_stops_at_second_slash :
  PyStr.contains "/" "C/E/G" = true /\
  exists c, Chord.init "C/E/G" "" = Ok c /\
            Chord.bass_note c = "E" /\ Chord.bass_note c <> "E/G".
Proof. split; [done|]. eexists. by repeat split. Qed.

(** C4, amended: a token with a slash is cut at the first slash; the
    trimmed text before it is the chord part, from which root and suffix are
    read, and the bass note is the trimmed text between the first slash and
    the next one (the whole remainder when there is no further slash); when
    that text is empty after trimming the bass note is the root.  For
    ["B7/D#"] the bass note is ["D#"]. *)
Theorem parse_slash_chord token section :
  PyStr.contains "/" token = true ->
  (exists pre seg tail c,
      PyStr.strip token = pre +:+ "/" +:+ seg +:+ tail /\
      PyStr.contains "/" pre = false /\
      PyStr.contains "/" seg = false /\
      (tail = "" \/ exists t, tail = "/" +:+ t) /\
      Chord.init token section = Ok c /\
      (Chord.root c, Chord.suffix c) = Chord.root_suffix (PyStr.strip pre) /\
      Chord.bass_note c =
        (if decide (PyStr.strip seg = "") then Chord.root c
         else PyStr.strip seg)) /\
  (exists c, Chord.init "B7/D#" "" = Ok c /\ Chord.root c = "B" /\
             Chord.suffix c = "7" /\ Chord.bass_note c = "D#").
Proof.
  intros Ht. split; [|eexists; by repeat split].
  rewrite <- (strip_contains "/") in Ht by done.
  destruct (first_occurrence _ _ Ht) as (pre & rest & Hs & Hp).
  destruct (next_segment "/" rest)
    as (seg & tail & more & -> & Hseg & Htail & Hr).
  exists pre, seg, tail. eexists. split; [exact Hs|].
  split; [done|]. split; [done|]. split; [exact Htail|].
  unfold Chord.init. rewrite Hs, (parse_slash _ _ _ _ _ Hp Hr).
  split; [done|]. cbn [Chord.root Chord.suffix Chord.bass_note].
  split; [by destruct (Chord.root_suffix (PyStr.strip pre))|].
  destruct (PyStr.strip seg) eqn:E; by case_decide.
Qed.

Lemma parse_slash_chord_witness :
  exists pre seg tail c,
    PyStr.strip "F#7sus4/C#" = pre +:+ "/" +:+ seg +:+ tail /\
    PyStr.contains "/" pre = false /\
    PyStr.contains "/" seg = false /\
    (tail = "" \/ exists t, tail = "/" +:+ t) /\
    Chord.init "F#7sus4/C#" "" = Ok c /\
    (Chord.root c, Chord.suffix c) = Chord.root_suffix (PyStr.strip pre) /\
    Chord.bass_note c =
      (if decide (PyStr.strip seg = "") then Chord.root c else PyStr.strip seg).
Proof.
  assert (PyStr.contains "/" "F#7sus4/C#" = true) as Ht by reflexivity.
  exact (proj1 (parse_slash_chord "F#7sus4/C#" "" Ht)).
Defined.

(** C5, as the specification states it, fails: the token ["/"] is neither
    empty nor blank, and its bass note is the empty string. *)
Lemma slash_token_has_empty_bass_note :
  PyStr.strip "/" <> "" /\
  exists c, Chord.init "/" "" = Ok c /\ Chord.bass_note c = "".
Proof. split; [done|]. by eexists. Qed.

(** C5, amended: for every token that is neither empty nor blank and whose
    trimmed text does not begin with a slash, the chord has a non-empty root
    and a non-empty bass note.  (A token that begins with a slash has an
    empty root, and an empty bass note too when nothing stands between that
    slash and the next one.) *)
Theorem bass_note_nonempty token section :
  PyStr.strip token <> "" ->
  PyStr.startswith "/" (PyStr.strip token) = false ->
  exists c, Chord.init token section = Ok c /\
            Chord.root c <> "" /\ Chord.bass_note c <> "".
Proof.
  intros Hne Hsl. unfold Chord.init.
  destruct (PyStr.strip token) as [|a s] eqn:Hst; [done|].
  pose proof (strip_head _ _ _ Hst) as Ha.
  assert (a <> "/"%char) as Hslash.
  { intros ->. by vm_compute in Hsl. }
  destruct (PyStr.contains "/" (String a s)) eqn:Hc.
  - destruct (first_occurrence _ _ Hc) as (pre & rest & Hs & Hp).
    destruct (split_nonempty "/" rest) as (seg & more & Hr).
    rewrite Hs, (parse_slash _ _ _ _ _ Hp Hr). eexists. split; [done|].
    cbn [Chord.root Chord.bass_note].
    assert ((Chord.root_suffix (PyStr.strip pre)).1 <> "") as Hroot.
    { apply root_suffix_nonempty. destruct pre as [|b pre].
      - change ("" +:+ String "/"%char rest) with (String "/"%char rest) in Hs.
        congruence.
      - change (String b pre +:+ String "/"%char rest)
          with (String b (pre +:+ String "/"%char rest)) in Hs.
        injection Hs as <- _.
        by destruct (strip_keeps_head a pre Ha) as [r ->]. }
    split; [done|].
    destruct (PyStr.truthy (PyStr.strip seg)) eqn:E; [|done].
    by apply truthy_true.
  - rewrite parse_no_slash by done. eexists. split; [done|].
    cbn [Chord.root Chord.bass_note].
    split; by apply root_suffix_nonempty.
Qed.

Lemma bass_note_nonempty_witness :
  exists c, Chord.init "Am7" "" = Ok c /\
            Chord.root c <> "" /\ Chord.bass_note c <> "".
Proof.
  apply (bass_note_nonempty "Am7" ""); [discriminate | reflexivity].
Defined.

(** ** Key detection *)

Section counter.
Implicit Types (k x r : string) (l ks : list string) (c : Counter.t).

Lemma count_snoc k l x :
  count k (l ++ [x]) = (count k l + (if decide (x = k) then 1 else 0))%nat.
Proof.
  unfold count. rewrite filter_app, length_app, filter_singleton; [|exact l].
  by case_decide.
Qed.

Lemma count_zero k l : k ∉ l -> count k l = 0%nat.
Proof.
  intros Hk. unfold count.
  destruct (filter (fun y => y = k) l) as [|y f] eqn:E; [done|].
  assert (y ∈ filter (fun y => y = k) l) as Hy by (rewrite E; left).
  apply list_elem_of_filter in Hy as [-> ?]. done.
Qed.

Lemma first_seen_snoc l x :
  first_seen (l ++ [x]) =
  if decide (x ∈ first_seen l) then first_seen l else first_seen l ++ [x].
Proof. unfold first_seen. by rewrite fold_left_app. Qed.

Lemma first_seen_elem l x : x ∈ first_seen l <-> x ∈ l.
Proof.
  induction l as [|y l IH] using rev_ind; [done|].
  rewrite first_seen_snoc, elem_of_app, list_elem_of_singleton.
  case_decide as Hy; [|rewrite elem_of_app, list_elem_of_singleton];
    naive_solver.
Qed.

Lemma first_seen_NoDup l : NoDup (first_seen l).
Proof.
  induction l as [|y l IH] using rev_ind; [constructor|].
  rewrite first_seen_snoc. case_decide as Hy; [done|].
  apply NoDup_app. split; [done|]. split; [|apply NoDup_singleton].
  intros z Hz ->%list_elem_of_singleton. done.
Qed.

(** What stands before the first occurrence of [r] in [l] has been seen
    before [r]. *)
Lemma first_seen_before l ks1 r ks2 :
  first_seen l = ks1 ++ r :: ks2 ->
  exists pre post,
    l = pre ++ r :: post /\ (r ∉ pre) /\ forall k, k ∈ pre -> k ∈ ks1.
Proof.
  revert ks1 ks2. induction l as [|x l IH] using rev_ind; intros ks1 ks2.
  { by destruct ks1. }
  rewrite first_seen_snoc. case_decide as Hx.
  - intros (pre & post & -> & Hr & Hk)%IH.
    exists pre, (post ++ [x]). by rewrite <- app_assoc.
  - destruct ks2 as [|y ks2 _] using rev_ind.
    + intros [Hl <-]%app_inj_tail. exists l, []. split; [done|].
      rewrite <- Hl. split; [by rewrite <- first_seen_elem|].
      intros k. by rewrite first_seen_elem.
    + rewrite app_comm_cons, app_assoc.
      intros [(pre & post & -> & Hr & Hk)%IH <-]%app_inj_tail.
      exists pre, (post ++ [x]). by rewrite <- app_assoc.
Qed.

Lemma incr_fresh k c : k ∉ c.*1 -> Counter.incr k c = c ++ [(k, 1%nat)].
Proof.
  induction c as [|[k' n] c IH]; [done|].
  intros [Hk Hc]%not_elem_of_cons. simpl in *.
  rewrite decide_False by done. by rewrite IH.
Qed.

Lemma incr_seen k c1 n c2 :
  k ∉ c1.*1 ->
  Counter.incr k (c1 ++ (k, n) :: c2) = c1 ++ (k, S n) :: c2.
Proof.
  induction c1 as [|[k' n'] c1 IH]; simpl.
  - intros _. by rewrite decide_True.
  - intros [Hk Hc]%not_elem_of_cons.
    rewrite decide_False by done. by rewrite IH.
Qed.

Lemma fmap_counts_ext (cnt cnt' : string -> nat) ks :
  (forall k, k ∈ ks -> cnt k = cnt' k) ->
  (fun k => (k, cnt k)) <$> ks = (fun k => (k, cnt' k)) <$> ks.
Proof.
  intros H. apply list_fmap_ext. intros i k Hk.
  by rewrite (H k) by by eapply list_elem_of_lookup_2.
Qed.

Lemma fmap_counts_keys (cnt : string -> nat) ks :
  ((fun k => (k, cnt k)) <$> ks).*1 = ks.
Proof. rewrite <- list_fmap_compose. apply list_fmap_id. Qed.

(** The counter of [l]: each distinct element, in order of first
    appearance, with its number of occurrences. *)
Lemma of_list_spec l :
  Counter.of_list l = (fun k => (k, count k l)) <$> first_seen l.
Proof.
  induction l as [|x l IH] using rev_ind; [done|].
  unfold Counter.of_list in *. rewrite fold_left_app. simpl. rewrite IH.
  rewrite first_seen_snoc. case_decide as Hx.
  - destruct (list_elem_of_split_l _ _ Hx) as (ks1 & ks2 & Hks & Hx1).
    pose proof (first_seen_NoDup l) as Hnd. rewrite Hks in Hnd |- *.
    apply NoDup_app in Hnd as (_ & Hdis & [Hx2 _]%NoDup_cons).
    rewrite !fmap_app, !fmap_cons.
    rewrite incr_seen by by rewrite fmap_counts_keys.
    f_equal; [|f_equal].
    + apply fmap_counts_ext. intros k Hk. rewrite count_snoc.
      rewrite decide_False; [lia | by intros ->].
    + rewrite count_snoc, decide_True by done. f_equal. lia.
    + apply fmap_counts_ext. intros k Hk. rewrite count_snoc.
      rewrite decide_False; [lia | by intros ->].
  - rewrite incr_fresh by by rewrite fmap_counts_keys.
    rewrite fmap_app. simpl. f_equal.
    + apply fmap_counts_ext. intros k Hk. rewrite count_snoc.
      rewrite decide_False; [lia | by intros ->].
    + rewrite count_snoc, decide_True by done.
      rewrite count_zero by by rewrite <- first_seen_elem. done.
Qed.

(** [max] keeps the first item with the largest count. *)
Lemma max_item_first (xs pre mid : Counter.t) (best : string * nat) :
  (forall y, y ∈ pre -> (y.2 < best.2)%nat) ->
  (forall y, y ∈ mid -> (y.2 <= best.2)%nat) ->
  exists c1 c2,
    pre ++ best :: mid ++ xs = c1 ++ Counter.max_item best xs :: c2 /\
    (forall y, y ∈ c1 -> (y.2 < (Counter.max_item best xs).2)%nat) /\
    (forall y, y ∈ c2 -> (y.2 <= (Counter.max_item best xs).2)%nat).
Proof.
  revert pre mid best. induction xs as [|y xs IH]; intros pre mid best Hp Hm.
  - exists pre, mid. by rewrite app_nil_r.
  - change (Counter.max_item best (y :: xs))
      with (Counter.max_item (if (best.2 <? y.2)%nat then y else best) xs).
    destruct (best.2 <? y.2)%nat eqn:Hlt.
    + apply Nat.ltb_lt in Hlt.
      destruct (IH (pre ++ best :: mid) [] y) as (c1 & c2 & Heq & H1 & H2).
      * intros z [Hz | [-> | Hz]%elem_of_cons]%elem_of_app;
          [specialize (Hp z Hz) | | specialize (Hm z Hz)]; lia.
      * intros z Hz. by apply elem_of_nil in Hz.
      * exists c1, c2. split; [|done].
        rewrite <- Heq. by rewrite <- app_assoc.
    + apply Nat.ltb_ge in Hlt.
      destruct (IH pre (mid ++ [y]) best) as (c1 & c2 & Heq & H1 & H2).
      * done.
      * intros z [Hz | ->%list_elem_of_singleton]%elem_of_app;
          [by apply Hm | done].
      * exists c1, c2. split; [|done].
        rewrite <- Heq. by rewrite <- app_assoc.
Qed.

(** The most common root of a non-empty list: the item chosen has the
    largest count, and whatever precedes its first occurrence has a
    strictly smaller one. *)
Lemma most_common_first l :
  l <> [] ->
  exists r pre post,
    index (Counter.most_common_1 (Counter.of_list l)) 0%nat
      = Ok (r, count r l) /\
    l = pre ++ r :: post /\ (r ∉ pre) /\
    (forall r', (count r' l <= count r l)%nat) /\
    (forall r', r' ∈ pre -> (count r' l < count r l)%nat).
Proof.
  intros Hl. rewrite of_list_spec.
  destruct (first_seen l) as [|x ks] eqn:Hfs.
  { destruct l as [|y l]; [done|].
    assert (y ∈ first_seen (y :: l)) as Hy by (apply first_seen_elem; left).
    rewrite Hfs in Hy. by apply elem_of_nil in Hy. }
  rewrite fmap_cons. cbn [Counter.most_common_1 index lookup list_lookup].
  destruct (max_item_first ((fun k => (k, count k l)) <$> ks) [] []
              (x, count x l))
    as (c1 & c2 & Heq & H1 & H2);
    [intros y Hy; by apply elem_of_nil in Hy..|].
  set (m := Counter.max_item _ _) in *.
  change ([] ++ ?a :: [] ++ ?b) with (a :: b) in Heq.
  change ((x, count x l) :: _)
    with ((fun k => (k, count k l)) <$> (x :: ks)) in Heq.
  apply fmap_app_inv in Heq as (ks1 & ks' & -> & Hk' & Hks).
  symmetry in Hk'. apply fmap_cons_inv in Hk' as (r & ks2 & Hm & -> & ->).
  destruct (first_seen_before l ks1 r ks2) as (pre & post & Hpre & Hr & Hin);
    [by rewrite Hfs|].
  assert (forall k, k ∈ ks1 -> (count k l < count r l)%nat) as Hlt.
  { intros k Hk. rewrite Hm in H1.
    apply (H1 (k, count k l)), list_elem_of_fmap. by exists k. }
  exists r, pre, post. rewrite Hm. split; [done|]. split; [done|].
  split; [done|]. split; [|by auto].
  intros r'. destruct (decide (r' ∈ l)) as [Hin' | Hout].
  - apply first_seen_elem in Hin'. rewrite Hfs, Hks in Hin'.
    apply elem_of_app in Hin' as [Hk | [-> | Hk]%elem_of_cons].
    + specialize (Hlt _ Hk). lia.
    + done.
    + rewrite Hm in H2.
      apply (H2 (r', count r' l)), list_elem_of_fmap. by exists r'.
  - rewrite (count_zero r') by done. lia.
Qed.

End counter.

Lemma scan_minor_spec r chords :
  Song.scan_minor r chords = true <-> minor_evidence r chords.
Proof.
  unfold minor_evidence. induction chords as [|c chords IH]; simpl.
  - split; [done|]. intros (? & []%elem_of_nil & _).
  - destruct (decide (Chord.root c = r)) as [Hr | Hr];
      [destruct (Song.minor_like (Chord.suffix c)) eqn:Hm|].
    + split; [|done]. intros _. exists c. split; [left|done].
    + rewrite IH. split.
      * intros (c' & Hc' & H). exists c'. split; [by right | done].
      * intros (c' & [-> | Hc']%elem_of_cons & Hr' & Hm'); [congruence|].
        by exists c'.
    + rewrite IH. split.
      * intros (c' & Hc' & H). exists c'. split; [by right | done].
      * intros (c' & [-> | Hc']%elem_of_cons & Hr' & Hm'); [congruence|].
        by exists c'.
Qed.

Lemma detect_key_roots chords :
  filter (fun r => PyStr.truthy r = true) (map Chord.root chords) =
  nonempty_roots chords.
Proof. apply list_filter_iff. intros r. apply truthy_true. Qed.

Lemma detect_key_no_root chords :
  nonempty_roots chords = [] -> Song.detect_key chords = Ok "C".
Proof.
  intros Hr. unfold Song.detect_key. rewrite detect_key_roots, Hr.
  by destruct chords.
Qed.

Lemma detect_key_some_root chords :
  nonempty_roots chords <> [] ->
  Song.detect_key chords =
  item ← index (Counter.most_common_1 (Counter.of_list (nonempty_roots chords)))
               0%nat;
  Ok (item.1 +:+ (if Song.scan_minor item.1 chords then "m" else "")).
Proof.
  intros Hr. unfold Song.detect_key. rewrite detect_key_roots.
  destruct chords as [|c chords]; [done|].
  by destruct (nonempty_roots (c :: chords)).
Qed.

(** [Song.detect_key] returns for every chord sequence. *)
Lemma detect_key_returns chords : returns (Song.detect_key chords).
Proof.
  destruct (decide (nonempty_roots chords = [])) as [Hr | Hr].
  - rewrite detect_key_no_root by done. apply returns_Ok.
  - rewrite detect_key_some_root by done.
    destruct (most_common_first _ Hr) as (r & pre & post & -> & _).
    apply returns_Ok.
Qed.

(** The detected key when some chord has a root: a most frequent root,
    with the minor mark when [scan_minor] finds evidence for it. *)
Lemma detect_key_max_root chords :
  nonempty_roots chords <> [] ->
  exists r,
    r ∈ nonempty_roots chords /\
    (forall r', (count r' (nonempty_roots chords)
                 <= count r (nonempty_roots chords))%nat) /\
    Song.detect_key chords
    = Ok (r +:+ (if Song.scan_minor r chords then "m" else "")).
Proof.
  intros Hr. rewrite detect_key_some_root by done.
  destruct (most_common_first _ Hr)
    as (r & pre & post & -> & Hpre & Hnot & Hmax & Hfirst).
  exists r. split; [|by split].
  rewrite Hpre. apply elem_of_app. right. left.
Qed.

(** C6, as the specification states it, fails: the sequence of the one
    chord parsed from ["/"] is not empty and its only root, hence its most
    frequent one, is the empty string, yet the detected key is ["C"]. *)
Lemma detect_key_skips_empty_roots :
  Chord.init "/" "" = Ok chord_slash /\
  [chord_slash] <> [] /\
  Song.detect_key [chord_slash] = Ok "C" /\
  forall r, r ∈ Chord.root <$> [chord_slash] ->
            Song.detect_key [chord_slash] <> Ok r /\
            Song.detect_key [chord_slash] <> Ok (r +:+ "m").
Proof.
  split; [done|]. split; [done|]. split; [done|].
  intros r ->%list_elem_of_singleton. by split.
Qed.

(** C6, amended: [detect_key] returns ["C"] when no chord has a non-empty
    root (the empty sequence included); otherwise it returns the most
    frequent of the non-empty roots, ties broken by first appearance,
    followed by ["m"] exactly when a chord on that root has a suffix with
    ["m"] but neither ["maj"] nor ["dim"]; for [Em, C, B, Em, C, B, Em, C]
    the result is ["Em"]. *)
Theorem detect_key_most_common chords :
  (nonempty_roots chords = [] -> Song.detect_key chords = Ok "C") /\
  (nonempty_roots chords <> [] ->
   exists r pre post (minor : bool),
     nonempty_roots chords = pre ++ r :: post /\ (r ∉ pre) /\
     (forall r', (count r' (nonempty_roots chords)
                  <= count r (nonempty_roots chords))%nat) /\
     (forall r', r' ∈ pre ->
                 (count r' (nonempty_roots chords)
                  < count r (nonempty_roots chords))%nat) /\
     (minor = true <-> minor_evidence r chords) /\
     Song.detect_key chords = Ok (r +:+ (if minor then "m" else ""))) /\
  (count "E" (nonempty_roots example_progression) = 3%nat /\
   count "C" (nonempty_roots example_progression) = 3%nat /\
   Song.detect_key example_progression = Ok "Em").
Proof.
  split; [apply detect_key_no_root|]. split; [|by vm_compute].
  intros Hr. rewrite detect_key_some_root by done.
  destruct (most_common_first _ Hr)
    as (r & pre & post & -> & Hpre & Hnot & Hmax & Hfirst).
  exists r, pre, post, (Song.scan_minor r chords).
  split; [done|]. split; [done|]. split; [done|]. split; [done|].
  split; [apply scan_minor_spec | done].
Qed.

Lemma detect_key_most_common_witness :
  exists r pre post (minor : bool),
    nonempty_roots example_progression = pre ++ r :: post /\ (r ∉ pre) /\
    (forall r', (count r' (nonempty_roots example_progression)
                 <= count r (nonempty_roots example_progression))%nat) /\
    (forall r', r' ∈ pre ->
                (count r' (nonempty_roots example_progression)
                 < count r (nonempty_roots example_progression))%nat) /\
    (minor = true <-> minor_evidence r example_progression) /\
    Song.detect_key example_progression = Ok (r +:+ (if minor then "m" else "")).
Proof.
  assert (nonempty_roots example_progression <> []) as Hr by discriminate.
  exact (proj1 (proj2 (detect_key_most_common example_progression)) Hr).
Defined.


(** ** The cards of a key that is a string *)

Lemma pitch_class_range name : 0 <= pitch_class name < 12.
Proof.
  unfold pitch_class, get.
  destruct (NOTE_TO_PITCH !! name) as [p|] eqn:E; simpl; [|lia].
  apply elem_of_list_to_map_2 in E.
  repeat (apply elem_of_cons in E as [E | E]; [injection E as -> ->; lia|]).
  by apply elem_of_nil in E.
Qed.

(** Every formula starts at the root and has three or four offsets. *)
Lemma formula_shape s :
  exists rest, formula s = 0 :: rest /\ (2 <= length rest <= 3)%nat.
Proof.
  unfold formula. destruct (CHORD_FORMULAS !! s) as [f|] eqn:E; simpl.
  - apply elem_of_list_to_map_2 in E.
    repeat (apply elem_of_cons in E as [E | E];
            [injection E as -> ->; eexists; split; [done | simpl; lia]|]).
    by apply elem_of_nil in E.
  - eexists. split; [done | simpl; lia].
Qed.

(** A name of the spelling tables is a letter with an optional accidental,
    never the dot of an unmarked cell. *)
Lemma spelling_name_not_dot k root p n :
  spelling_table k root !! p = Some n -> n <> "." /\ n <> "".
Proof.
  unfold spelling_table. intros E.
  destruct (sharp_spelling k root); apply elem_of_list_to_map_2 in E;
    repeat (apply elem_of_cons in E as [E | E]; [by injection E as -> ->|]);
    by apply elem_of_nil in E.
Qed.

(** The fields of a card built with a key that is a string. *)
Lemma init_fields chord k sc card :
  sc = 4 \/ sc = 5 ->
  BassCard.init chord (Some k) sc = Ok card ->
  BassCard.chord card = chord /\
  BassCard.key card = Some k /\
  BassCard._get_scale_degree chord (Some k) = Ok (BassCard.scale_degree card) /\
  BassCard._get_chord_notes chord (Some k) = Ok (BassCard.notes card) /\
  BassCard.note_pitches card = note_pitches_of chord /\
  BassCard.bass_pitch card = pitch_class (Chord.bass_note chord) /\
  BassCard.fretboard card =
    map (row_of k (Chord.root chord) (pitch_class (Chord.bass_note chord))
           (note_pitches_of chord))
        (tuning_of sc).
Proof.
  intros Hsc Hi.
  destruct (init_str chord k sc Hsc) as (degree & names & Hd & Hn & Hi').
  rewrite Hi' in Hi. injection Hi as <-. by repeat split.
Qed.

(** The cell of string [i] and fret [f] of a constructed card. *)
Lemma grid_cell chord k sc card (i f : nat) label open :
  sc = 4 \/ sc = 5 ->
  BassCard.init chord (Some k) sc = Ok card ->
  tuning_of sc !! i = Some (label, open) ->
  (f <= 5)%nat ->
  exists row,
    BassCard.fretboard card !! i = Some (label, row) /\
    length row = 6%nat /\
    row !! f =
      Some (cell_of k (Chord.root chord) (BassCard.bass_pitch card)
              (BassCard.note_pitches card) open (Z.of_nat f)).
Proof.
  intros Hsc Hi Ht Hf.
  destruct (init_fields _ _ _ _ Hsc Hi) as (_ & _ & _ & _ & -> & -> & ->).
  eexists. rewrite map_lookup, Ht. split; [reflexivity|]. split; [done|].
  cbn [snd]. by rewrite map_lookup, range_lookup by (unfold FRETS; lia).
Qed.

Lemma tuning_length sc : sc = 4 \/ sc = 5 -> length (tuning_of sc) = Z.to_nat sc.
Proof. by intros [-> | ->]. Qed.

(** Every pitch class lies within the first five frets of the G, D or A
    string. *)
Lemma pitch_on_grid sc p :
  0 <= p < 12 ->
  exists (i f : nat) label open,
    (i < 3)%nat /\
    tuning_of sc !! i = Some (label, open) /\ (f <= 5)%nat /\
    (open + Z.of_nat f) mod 12 = p.
Proof.
  intros Hp.
  assert (p = 0 \/ p = 1 \/ p = 2 \/ p = 3 \/ p = 4 \/ p = 5 \/ p = 6 \/
          p = 7 \/ p = 8 \/ p = 9 \/ p = 10 \/ p = 11) as Hc by lia.
  destruct Hc as [-> | [-> | [-> | [-> | [-> | [-> | [-> | [-> | [-> | [-> |
                 [-> | ->]]]]]]]]]]].
  - exists 0%nat, 5%nat, "G", 55. split; [lia | split; [done | split; [lia | done]]].
  - exists 2%nat, 4%nat, "A", 45. split; [lia | split; [done | split; [lia | done]]].
  - exists 1%nat, 0%nat, "D", 50. split; [lia | split; [done | split; [lia | done]]].
  - exists 1%nat, 1%nat, "D", 50. split; [lia | split; [done | split; [lia | done]]].
  - exists 1%nat, 2%nat, "D", 50. split; [lia | split; [done | split; [lia | done]]].
  - exists 1%nat, 3%nat, "D", 50. split; [lia | split; [done | split; [lia | done]]].
  - exists 1%nat, 4%nat, "D", 50. split; [lia | split; [done | split; [lia | done]]].
  - exists 0%nat, 0%nat, "G", 55. split; [lia | split; [done | split; [lia | done]]].
  - exists 0%nat, 1%nat, "G", 55. split; [lia | split; [done | split; [lia | done]]].
  - exists 0%nat, 2%nat, "G", 55. split; [lia | split; [done | split; [lia | done]]].
  - exists 0%nat, 3%nat, "G", 55. split; [lia | split; [done | split; [lia | done]]].
  - exists 0%nat, 4%nat, "G", 55. split; [lia | split; [done | split; [lia | done]]].
Qed.

(** X1: [get_note_at_position] on a constructed card returns for all
    integers: inside the grid (string 0 to count-1, fret 0 to 5) it is the
    cell of that string and fret, with the role of its pitch and the name
    of its pitch; anywhere else, negative indices included, it is the
    unmarked cell named ["?"]. *)
Theorem get_note_at_position_spec chord k sc card string_idx fret :
  sc = 4 \/ sc = 5 ->
  BassCard.init chord (Some k) sc = Ok card ->
  (0 <= string_idx < sc -> 0 <= fret <= 5 ->
   exists label open name,
     tuning_of sc !! Z.to_nat string_idx = Some (label, open) /\
     spelling_table k (Chord.root chord) !! ((open + fret) mod 12)
       = Some name /\
     get_note_at_position card string_idx fret =
       Ok (role_of (BassCard.bass_pitch card) (BassCard.note_pitches card)
                   ((open + fret) mod 12),
           name)) /\
  (~ (0 <= string_idx < sc /\ 0 <= fret <= 5) ->
   get_note_at_position card string_idx fret = Ok (NOT_IN_CHORD, "?")).
Proof.
  intros Hsc Hi.
  assert (length (BassCard.fretboard card) = Z.to_nat sc) as Hlen.
  { destruct (init_fields _ _ _ _ Hsc Hi) as (_ & _ & _ & _ & _ & _ & ->).
    by rewrite length_map, tuning_length. }
  unfold get_note_at_position. rewrite Hlen. split.
  - intros Hs Hf.
    destruct (lookup_lt_is_Some_2 (tuning_of sc) (Z.to_nat string_idx))
      as [[label open] Ht]; [rewrite tuning_length by done; lia|].
    destruct (grid_cell chord k sc card (Z.to_nat string_idx) (Z.to_nat fret)
                label open Hsc Hi Ht) as (row & Hrow & _ & Hcell); [lia|].
    exists label, open, (note_name k (Chord.root chord) ((open + fret) mod 12)).
    split; [done|]. split; [apply note_name_lookup, pitch_range|].
    replace ((0 <=? string_idx) && (string_idx <? Z.of_nat (Z.to_nat sc))
             && (0 <=? fret) && (fret <=? FRETS)) with true
      by (symmetry; unfold FRETS;
          rewrite !andb_true_iff, !Z.leb_le, Z.ltb_lt; lia).
    unfold index. rewrite Hrow. simpl. rewrite Hcell.
    unfold cell_of. by rewrite Z2Nat.id by lia.
  - intros Hout.
    replace ((0 <=? string_idx) && (string_idx <? Z.of_nat (Z.to_nat sc))
             && (0 <=? fret) && (fret <=? FRETS)) with false; [done|].
    symmetry. apply not_true_is_false. unfold FRETS.
    rewrite !andb_true_iff, !Z.leb_le, Z.ltb_lt. lia.
Qed.

Lemma get_note_at_position_spec_witness :
  exists card,
    BassCard.init chord_Am7 (Some "Am") 4 = Ok card /\
    get_note_at_position card 0 2 = Ok (BASS_NOTE, "A") /\
    get_note_at_position card (-1) 2 = Ok (NOT_IN_CHORD, "?") /\
    get_note_at_position card 4 0 = Ok (NOT_IN_CHORD, "?").
Proof.
  destruct (init_str chord_Am7 "Am" 4) as (d & n & _ & _ & Hi);
    [left; reflexivity|].
  eexists. split; [exact Hi|].
  split; [reflexivity|].
  split;
    apply (get_note_at_position_spec chord_Am7 "Am" 4 _ _ _
             (or_introl eq_refl) Hi); lia.
Defined.

Lemma role_of_bass bass tones : role_of bass tones bass = BASS_NOTE.
Proof. unfold role_of. by rewrite decide_True. Qed.

Lemma role_of_bass_inv bass tones p :
  role_of bass tones p = BASS_NOTE -> p = bass.
Proof. unfold role_of. by repeat case_decide. Qed.

Lemma role_of_chord_inv bass tones p :
  role_of bass tones p = CHORD_NOTE -> p ∈ tones.
Proof. unfold role_of. by repeat case_decide. Qed.

(** The cells of a row of a constructed card, read back. *)
Lemma grid_cell_inv chord k sc card (i f : nat) label row cell :
  sc = 4 \/ sc = 5 ->
  BassCard.init chord (Some k) sc = Ok card ->
  BassCard.fretboard card !! i = Some (label, row) ->
  row !! f = Some cell ->
  exists open,
    tuning_of sc !! i = Some (label, open) /\ (f <= 5)%nat /\
    cell = cell_of k (Chord.root chord) (BassCard.bass_pitch card)
             (BassCard.note_pitches card) open (Z.of_nat f).
Proof.
  intros Hsc Hi Hrow Hcell.
  destruct (init_fields _ _ _ _ Hsc Hi) as (_ & _ & _ & _ & Hp & Hb & Hg).
  rewrite Hg, map_lookup in Hrow.
  destruct (tuning_of sc !! i) as [[label' open]|] eqn:Ht; [|done].
  unfold row_of in Hrow. cbn [fmap option_fmap option_map fst snd] in Hrow.
  assert (label' = label /\
          map (cell_of k (Chord.root chord)
                 (pitch_class (Chord.bass_note chord))
                 (note_pitches_of chord) open)
              (range (FRETS + 1)) = row) as [-> <-] by (split; congruence).
  clear Hrow. exists open. split; [done|].
  rewrite map_lookup in Hcell.
  destruct (range (FRETS + 1) !! f) as [z|] eqn:Hz; [|done].
  assert (f < 6)%nat as Hf.
  { apply lookup_lt_Some in Hz. unfold range in Hz.
    by rewrite length_map, length_seq in Hz. }
  rewrite range_lookup in Hz by done. injection Hz as <-.
  injection Hcell as <-. split; [lia|]. by rewrite Hp, Hb.
Qed.

(** X2: on every constructed card the bass note can be played: some cell
    of the G, D or A string within frets 0 to 5 is marked as the bass
    note, and no string has two bass-note cells. *)
Theorem bass_note_on_grid chord k sc card :
  sc = 4 \/ sc = 5 ->
  BassCard.init chord (Some k) sc = Ok card ->
  (exists (i f : nat) label row name,
      (i < 3)%nat /\ (f <= 5)%nat /\
      BassCard.fretboard card !! i = Some (label, row) /\
      row !! f = Some (BASS_NOTE, name)) /\
  (forall (i f1 f2 : nat) label row n1 n2,
      BassCard.fretboard card !! i = Some (label, row) ->
      row !! f1 = Some (BASS_NOTE, n1) ->
      row !! f2 = Some (BASS_NOTE, n2) ->
      f1 = f2).
Proof.
  intros Hsc Hi. split.
  - destruct (init_fields _ _ _ _ Hsc Hi) as (_ & _ & _ & _ & _ & Hb & _).
    destruct (pitch_on_grid sc (BassCard.bass_pitch card))
      as (i & f & label & open & Hi3 & Ht & Hf & Hp);
      [rewrite Hb; apply pitch_class_range|].
    destruct (grid_cell _ _ _ _ i f label open Hsc Hi Ht Hf)
      as (row & Hrow & _ & Hcell).
    exists i, f, label, row. eexists.
    split; [done|]. split; [done|]. split; [done|].
    etrans; [exact Hcell|]. unfold cell_of. by rewrite Hp, role_of_bass.
  - intros i f1 f2 label row n1 n2 Hrow H1 H2.
    destruct (grid_cell_inv _ _ _ _ _ _ _ _ _ Hsc Hi Hrow H1)
      as (open & Ht & Hf1 & [= E1 _]).
    destruct (grid_cell_inv _ _ _ _ _ _ _ _ _ Hsc Hi Hrow H2)
      as (open' & Ht' & Hf2 & [= E2 _]).
    assert (open' = open) as -> by congruence.
    symmetry in E1, E2.
    apply role_of_bass_inv in E1. apply role_of_bass_inv in E2.
    pose proof (Z.div_mod (open + Z.of_nat f1) 12).
    pose proof (Z.div_mod (open + Z.of_nat f2) 12).
    lia.
Qed.

Lemma bass_note_on_grid_witness :
  exists card (i f : nat) label row name,
    BassCard.init chord_Am7 (Some "Am") 4 = Ok card /\
    (i < 3)%nat /\ (f <= 5)%nat /\
    BassCard.fretboard card !! i = Some (label, row) /\
    row !! f = Some (BASS_NOTE, name).
Proof.
  destruct (init_str chord_Am7 "Am" 4) as (d & n & _ & _ & Hi);
    [left; reflexivity|].
  destruct (bass_note_on_grid chord_Am7 "Am" 4 _ (or_introl eq_refl) Hi)
    as [(i & f & label & row & name & H) _].
  eexists _, i, f, label, row, name. split; [exact Hi | exact H].
Defined.

(** The notes of a constructed card with a non-empty root, one name per
    pitch class. *)
Lemma card_notes chord k sc card :
  sc = 4 \/ sc = 5 ->
  BassCard.init chord (Some k) sc = Ok card ->
  Chord.root chord <> "" ->
  BassCard.note_pitches card = chord_pitch_classes chord /\
  Forall2 (fun p n => spelling_table k (Chord.root chord) !! p = Some n)
          (BassCard.note_pitches card) (BassCard.notes card).
Proof.
  intros Hsc Hi Hr.
  destruct (init_fields _ _ _ _ Hsc Hi) as (_ & _ & _ & Hn & Hp & _).
  destruct (get_chord_notes_str chord k Hr) as (names & Hn' & Hf).
  rewrite Hn' in Hn. injection Hn as ->.
  unfold note_pitches_of in Hp. rewrite decide_False in Hp by done.
  by rewrite Hp.
Qed.

(** X3: the diagram and the list of chord notes agree: a cell marked as a
    chord note carries a name of the card's note list, and, for a non-empty
    root, every name of the note list is found on a marked cell of the G, D
    or A string within frets 0 to 5. *)
Theorem chord_notes_on_grid chord k sc card :
  sc = 4 \/ sc = 5 ->
  BassCard.init chord (Some k) sc = Ok card ->
  (forall (i f : nat) label row name,
      BassCard.fretboard card !! i = Some (label, row) ->
      row !! f = Some (CHORD_NOTE, name) ->
      name ∈ BassCard.notes card) /\
  (Chord.root chord <> "" ->
   forall name,
     name ∈ BassCard.notes card ->
     exists (i f : nat) label row role,
       (i < 3)%nat /\ (f <= 5)%nat /\
       BassCard.fretboard card !! i = Some (label, row) /\
       row !! f = Some (role, name) /\ role <> NOT_IN_CHORD).
Proof.
  intros Hsc Hi. split.
  - intros i f label row name Hrow Hcell.
    destruct (grid_cell_inv _ _ _ _ _ _ _ _ _ Hsc Hi Hrow Hcell)
      as (open & Ht & Hf & [= Hrole Hname]).
    symmetry in Hrole. apply role_of_chord_inv in Hrole.
    destruct (decide (Chord.root chord = "")) as [Hr | Hr].
    { destruct (init_fields _ _ _ _ Hsc Hi) as (_ & _ & _ & _ & Hp & _).
      rewrite Hp in Hrole. unfold note_pitches_of in Hrole.
      rewrite decide_True in Hrole by done. by apply elem_of_nil in Hrole. }
    destruct (card_notes _ _ _ _ Hsc Hi Hr) as [_ Hf2].
    apply list_elem_of_lookup in Hrole as [j Hj].
    destruct (Forall2_lookup_l _ _ _ _ _ Hf2 Hj) as (n & Hn & Hspell).
    rewrite Hname. unfold note_name. rewrite Hspell. simpl.
    by eapply list_elem_of_lookup_2.
  - intros Hr name Hname.
    destruct (card_notes _ _ _ _ Hsc Hi Hr) as [Hp Hf2].
    apply list_elem_of_lookup in Hname as [j Hj].
    destruct (Forall2_lookup_r _ _ _ _ _ Hf2 Hj) as (p & Hpj & Hspell).
    assert (0 <= p < 12) as Hrange.
    { pose proof (chord_pitch_classes_range chord) as Hall.
      rewrite <- Hp in Hall.
      by apply (proj1 (Forall_lookup _ _) Hall j p). }
    destruct (pitch_on_grid sc p Hrange)
      as (i & f & label & open & Hi3 & Ht & Hf & Hpitch).
    destruct (grid_cell _ _ _ _ i f label open Hsc Hi Ht Hf)
      as (row & Hrow & _ & Hcell).
    exists i, f, label, row,
      (role_of (BassCard.bass_pitch card) (BassCard.note_pitches card) p).
    split; [done|]. split; [done|]. split; [done|]. split.
    + etrans; [exact Hcell|]. unfold cell_of, note_name.
      by rewrite Hpitch, Hspell.
    + unfold role_of. case_decide; [done|].
      rewrite decide_True; [done|]. by eapply list_elem_of_lookup_2.
Qed.

Lemma chord_notes_on_grid_witness :
  exists card,
    BassCard.init chord_Am7 (Some "Em") 4 = Ok card /\
    forall name,
      name ∈ BassCard.notes card ->
      exists (i f : nat) label row role,
        (i < 3)%nat /\ (f <= 5)%nat /\
        BassCard.fretboard card !! i = Some (label, row) /\
        row !! f = Some (role, name) /\ role <> NOT_IN_CHORD.
Proof.
  destruct (init_str chord_Am7 "Em" 4) as (d & n & _ & _ & Hi);
    [left; reflexivity|].
  eexists. split; [exact Hi|].
  apply (proj2 (chord_notes_on_grid chord_Am7 "Em" 4 _ (or_introl eq_refl) Hi)).
  discriminate.
Defined.

(** X4: the note list and the pitch-class list of a card.  For a non-empty
    root they have the same length, 3 or 4, every pitch class lies between
    0 and 11, and the first one is the pitch class of the root, spelled by
    the table in use; for an empty root the note list is the single ["?"]
    while the pitch-class list is empty. *)
Theorem card_notes_shape chord k sc card :
  sc = 4 \/ sc = 5 ->
  BassCard.init chord (Some k) sc = Ok card ->
  (Chord.root chord <> "" ->
   length (BassCard.notes card) = length (BassCard.note_pitches card) /\
   (3 <= length (BassCard.notes card) <= 4)%nat /\
   Forall (fun p => 0 <= p < 12) (BassCard.note_pitches card) /\
   head (BassCard.note_pitches card)
     = Some (get NOTE_TO_PITCH (Chord.root chord) 0) /\
   exists first,
     head (BassCard.notes card) = Some first /\
     spelling_table k (Chord.root chord)
       !! get NOTE_TO_PITCH (Chord.root chord) 0 = Some first) /\
  (Chord.root chord = "" ->
   BassCard.notes card = ["?"] /\ BassCard.note_pitches card = []).
Proof.
  intros Hsc Hi. split.
  - intros Hr. destruct (card_notes _ _ _ _ Hsc Hi Hr) as [Hp Hf].
    pose proof (Forall2_length _ _ _ Hf) as Hlen.
    destruct (formula_shape (Chord.suffix chord)) as (rest & Hform & Hrest).
    assert (BassCard.note_pitches card =
            pitch_class (Chord.root chord)
            :: map (fun o => (pitch_class (Chord.root chord) + o) mod 12) rest)
      as Hcons.
    { rewrite Hp. unfold chord_pitch_classes. rewrite Hform. simpl.
      f_equal. rewrite Z.add_0_r. apply Z.mod_small, pitch_class_range. }
    split; [done|]. split; [rewrite <- Hlen, Hcons; simpl; rewrite length_map; lia|].
    split; [rewrite Hp; apply chord_pitch_classes_range|].
    split; [by rewrite Hcons|].
    rewrite Hcons in Hf. inversion Hf as [|p n ps ns Hn Hrest' Heq1 Heq2].
    by exists n.
  - intros Hr.
    destruct (init_fields _ _ _ _ Hsc Hi) as (_ & _ & _ & Hn & Hp & _).
    rewrite get_chord_notes_empty_root in Hn by done. injection Hn as <-.
    split; [done|]. rewrite Hp. unfold note_pitches_of.
    by rewrite decide_True.
Qed.

Lemma card_notes_shape_witness :
  exists card,
    BassCard.init chord_Am7 (Some "Em") 4 = Ok card /\
    length (BassCard.notes card) = length (BassCard.note_pitches card) /\
    (3 <= length (BassCard.notes card) <= 4)%nat /\
    head (BassCard.note_pitches card) = Some 9.
Proof.
  destruct (init_str chord_Am7 "Em" 4) as (d & n & _ & _ & Hi);
    [left; reflexivity|].
  eexists. split; [exact Hi|].
  destruct (proj1 (card_notes_shape chord_Am7 "Em" 4 _ (or_introl eq_refl) Hi))
    as (H1 & H2 & _ & H4 & _); [discriminate|].
  split; [exact H1|]. split; [exact H2 | exact H4].
Defined.

(** X5: the markers of a diagram.  For every cell of a constructed card
    the window and the HTML export print the same marker in both display
    modes; the marker is the dot exactly when the cell is not in the chord,
    which is exactly when the HTML cell has no class; and in standard mode
    the marker is ["B"] exactly on bass-note cells. *)
Theorem cell_markers chord k sc card (i f : nat) label row role name mode :
  sc = 4 \/ sc = 5 ->
  BassCard.init chord (Some k) sc = Ok card ->
  BassCard.fretboard card !! i = Some (label, row) ->
  row !! f = Some (role, name) ->
  BassChordApp._get_marker_text role name mode
    = BassChordApp._get_html_marker_text role name mode /\
  (BassChordApp._get_marker_text role name mode = "." <->
   role = NOT_IN_CHORD) /\
  (BassChordApp._get_html_cell_class role = "" <-> role = NOT_IN_CHORD) /\
  (BassChordApp._get_marker_text role name STANDARD = "B" <->
   role = BASS_NOTE) /\
  (role <> NOT_IN_CHORD ->
   BassChordApp._get_marker_text role name EDUCATIONAL = name).
Proof.
  intros Hsc Hi Hrow Hcell.
  destruct (grid_cell_inv _ _ _ _ _ _ _ _ _ Hsc Hi Hrow Hcell)
    as (open & Ht & Hf & [= Hrole Hname]).
  assert (name <> ".") as Hdot.
  { rewrite Hname.
    pose proof (note_name_lookup k (Chord.root chord) _
                  (pitch_range open (Z.of_nat f))) as Hl.
    by apply spelling_name_not_dot in Hl as [? _]. }
  clear Hrole Hname. split; [done|].
  destruct role, mode; simpl; repeat split; try done; congruence.
Qed.

Lemma cell_markers_witness :
  exists card row,
    BassCard.init chord_Am7 (Some "Am") 4 = Ok card /\
    BassCard.fretboard card !! 0%nat = Some ("G", row) /\
    row !! 2%nat = Some (BASS_NOTE, "A") /\
    BassChordApp._get_marker_text BASS_NOTE "A" STANDARD
      = BassChordApp._get_html_marker_text BASS_NOTE "A" STANDARD.
Proof.
  destruct (init_str chord_Am7 "Am" 4) as (d & n & _ & _ & Hi);
    [left; reflexivity|].
  eexists _, _. split; [exact Hi|]. split; [reflexivity|].
  split; [reflexivity|].
  exact (proj1 (cell_markers chord_Am7 "Am" 4 _ 0%nat 2%nat "G" _ BASS_NOTE
                  "A" STANDARD (or_introl eq_refl) Hi eq_refl eq_refl)).
Defined.

(** ** The fields of a parsed chord *)

Section normal_forms.
Implicit Types (c : ascii) (s : string).

Lemma isspace_lower_char c : PyStr.isspace (PyStr.lower_char c) = PyStr.isspace c.
Proof. by destruct c as [[] [] [] [] [] [] [] []]. Qed.

Lemma lower_char_idemp c :
  PyStr.lower_char (PyStr.lower_char c) = PyStr.lower_char c.
Proof. by destruct c as [[] [] [] [] [] [] [] []]. Qed.

Lemma lower_idemp s : PyStr.lower (PyStr.lower s) = PyStr.lower s.
Proof.
  induction s as [|c s IH]; [done|]. simpl. by rewrite lower_char_idemp, IH.
Qed.

Lemma lower_lstrip s : PyStr.lower (PyStr.lstrip s) = PyStr.lstrip (PyStr.lower s).
Proof.
  induction s as [|c s IH]; [done|]. simpl. rewrite isspace_lower_char.
  by destruct (PyStr.isspace c).
Qed.

Lemma lower_rstrip s : PyStr.lower (PyStr.rstrip s) = PyStr.rstrip (PyStr.lower s).
Proof.
  induction s as [|c s IH]; [done|]. simpl. rewrite <- IH, isspace_lower_char.
  destruct (PyStr.rstrip s); simpl; [by destruct (PyStr.isspace c) | done].
Qed.

Lemma lower_strip s : PyStr.lower (PyStr.strip s) = PyStr.strip (PyStr.lower s).
Proof. unfold PyStr.strip. by rewrite lower_rstrip, lower_lstrip. Qed.

Lemma rstrip_idemp s : PyStr.rstrip (PyStr.rstrip s) = PyStr.rstrip s.
Proof.
  induction s as [|c s IH]; [done|]. cbn [PyStr.rstrip].
  destruct (PyStr.rstrip s) as [|b r] eqn:Hr.
  - destruct (PyStr.isspace c) eqn:Hc; [done|]. simpl. by rewrite Hc.
  - cbn [PyStr.rstrip]. cbn [PyStr.rstrip] in IH.
    destruct (match PyStr.rstrip r with
              | "" => if PyStr.isspace b then "" else String b ""
              | String a s0 => String b (String a s0)
              end) eqn:E; [done|]. by rewrite IH.
Qed.

Lemma lstrip_fixed c s :
  PyStr.isspace c = false -> PyStr.lstrip (String c s) = String c s.
Proof. intros Hc. simpl. by rewrite Hc. Qed.

Lemma strip_idemp s : PyStr.strip (PyStr.strip s) = PyStr.strip s.
Proof.
  destruct (PyStr.strip s) as [|c r] eqn:Hs; [done|].
  pose proof (strip_head _ _ _ Hs) as Hc.
  unfold PyStr.strip at 1. rewrite lstrip_fixed by done.
  rewrite <- Hs. unfold PyStr.strip. apply rstrip_idemp.
Qed.

(** A string without white space is not changed by [strip]. *)
Lemma strip_no_space s : no_space s -> PyStr.strip s = s.
Proof.
  destruct s as [|c s]; [done|]. intros [Hc Hs].
  unfold PyStr.strip. rewrite lstrip_fixed by done.
  revert c Hc. induction s as [|b s IH]; intros c Hc.
  - simpl. by rewrite Hc.
  - destruct Hs as [Hb Hs]. specialize (IH Hs b Hb).
    change (PyStr.rstrip (String c (String b s)))
      with (match PyStr.rstrip (String b s) with
            | "" => if PyStr.isspace c then "" else String c ""
            | String a r => String c (String a r)
            end).
    by rewrite IH.
Qed.

End normal_forms.

(** The shapes of a root: a letter A to G with an optional accidental, or
    the first character of a chord part that begins otherwise, or nothing. *)
Lemma re_match_root_shape s r :
  re_match_root s = Some r ->
  exists c, (65 <= N_of_ascii c <= 71)%N /\
            (r = String c "" \/ r = String c "#" \/ r = String c "b").
Proof.
  destruct s as [|c s]; [done|]. simpl.
  destruct (_ && _) eqn:Hc; [|done].
  apply andb_true_iff in Hc as [H1%N.leb_le H2%N.leb_le].
  intros Hr. exists c. split; [done|].
  destruct s as [|d s]; [left; congruence|].
  case_decide as Hd; [|left; congruence].
  destruct Hd as [-> | ->]; [right; left | right; right]; congruence.
Qed.

Lemma letter_cases c :
  (65 <= N_of_ascii c <= 71)%N ->
  c = "A"%char \/ c = "B"%char \/ c = "C"%char \/ c = "D"%char \/
  c = "E"%char \/ c = "F"%char \/ c = "G"%char.
Proof.
  intros Hc. rewrite <- (ascii_N_embedding c).
  assert (N_of_ascii c = 65 \/ N_of_ascii c = 66 \/ N_of_ascii c = 67 \/
          N_of_ascii c = 68 \/ N_of_ascii c = 69 \/ N_of_ascii c = 70 \/
          N_of_ascii c = 71)%N as H by lia.
  destruct H as [-> | [-> | [-> | [-> | [-> | [-> | ->]]]]]]; tauto.
Qed.

(** X6: a root matched by the pattern (a letter A to G with an optional
    [#] or [b]) has an entry in the note table, except the four spellings
    Cb, E#, Fb and B#: these are matched as roots but are not in the table,
    so they count as pitch class 0, the pitch class of C. *)
Theorem matched_root_pitch s r :
  re_match_root s = Some r ->
  (NOTE_TO_PITCH !! r = None <-> r ∈ ["Cb"; "E#"; "Fb"; "B#"]) /\
  (r ∈ ["Cb"; "E#"; "Fb"; "B#"] -> get NOTE_TO_PITCH r 0 = 0).
Proof.
  intros (c & Hc & Hr)%re_match_root_shape.
  apply letter_cases in Hc.
  destruct Hc as [-> | [-> | [-> | [-> | [-> | [-> | ->]]]]]];
    destruct Hr as [-> | [-> | ->]];
    (split; [split; [intros H; try (by vm_compute in H); set_solver
                    |intros H; try (by vm_compute);
                     exfalso; set_solver]
            |intros H; try (by vm_compute); exfalso; set_solver]).
Qed.

Lemma matched_root_pitch_witness :
  (NOTE_TO_PITCH !! "Cb" = None <-> "Cb" ∈ ["Cb"; "E#"; "Fb"; "B#"]) /\
  ("Cb" ∈ ["Cb"; "E#"; "Fb"; "B#"] -> get NOTE_TO_PITCH "Cb" 0 = 0).
Proof. apply (matched_root_pitch "Cbmaj7" "Cb"). reflexivity. Defined.

Lemma letter_not_space c : (65 <= N_of_ascii c <= 71)%N -> PyStr.isspace c = false.
Proof.
  intros Hc%letter_cases.
  by destruct Hc as [-> | [-> | [-> | [-> | [-> | [-> | ->]]]]]].
Qed.

(** Root and suffix read from a stripped chord part are in normal form. *)
Lemma root_suffix_normal chord_part :
  PyStr.strip chord_part = chord_part ->
  PyStr.strip (Chord.root_suffix chord_part).1 = (Chord.root_suffix chord_part).1 /\
  (String.length (Chord.root_suffix chord_part).1 <= 2)%nat /\
  PyStr.strip (Chord.root_suffix chord_part).2 = (Chord.root_suffix chord_part).2 /\
  PyStr.lower (Chord.root_suffix chord_part).2 = (Chord.root_suffix chord_part).2.
Proof.
  intros Hs. unfold Chord.root_suffix.
  destruct (re_match_root chord_part) as [r|] eqn:Hm; cbn [fst snd].
  - destruct (re_match_root_shape _ _ Hm) as (c & Hc & Hr).
    pose proof (letter_not_space c Hc) as Hsp.
    split; [|split; [|split]].
    + apply strip_no_space. by destruct Hr as [-> | [-> | ->]].
    + destruct Hr as [-> | [-> | ->]]; simpl; lia.
    + apply strip_idemp.
    + by rewrite lower_strip, lower_idemp.
  - split; [|split; [|split]].
    + destruct chord_part as [|c s]; [done|].
      apply strip_no_space. split; [|done]. by eapply strip_head.
    + destruct chord_part; simpl; lia.
    + case_decide; [apply strip_idemp | done].
    + case_decide; [by rewrite lower_strip, lower_idemp | done].
Qed.

(** The constructor strips the token and keeps the section; every string
    field it fills is stripped, and the suffix is lowered. *)
Lemma init_fields_normal token section c :
  Chord.init token section = Ok c ->
  Chord.symbol c = PyStr.strip token /\
  Chord.section c = section /\
  PyStr.strip (Chord.symbol c) = Chord.symbol c /\
  PyStr.strip (Chord.root c) = Chord.root c /\
  (String.length (Chord.root c) <= 2)%nat /\
  PyStr.strip (Chord.bass_note c) = Chord.bass_note c /\
  PyStr.strip (Chord.suffix c) = Chord.suffix c /\
  PyStr.lower (Chord.suffix c) = Chord.suffix c.
Proof.
  unfold Chord.init. intros Hp.
  destruct (PyStr.contains "/" (PyStr.strip token)) eqn:Hc.
  - destruct (first_occurrence _ _ Hc) as (pre & rest & Hs & Hpre).
    destruct (split_nonempty "/" rest) as (seg & more & Hr).
    rewrite Hs, (parse_slash _ _ _ _ _ Hpre Hr) in Hp. injection Hp as <-.
    cbn [Chord.symbol Chord.section Chord.root Chord.bass_note Chord.suffix].
    destruct (root_suffix_normal (PyStr.strip pre) (strip_idemp pre))
      as (H1 & H2 & H3 & H4).
    rewrite <- Hs. split; [done|]. split; [done|].
    split; [apply strip_idemp|]. split; [done|]. split; [done|].
    split; [|done].
    destruct (PyStr.truthy (PyStr.strip seg)); [apply strip_idemp | done].
  - rewrite parse_no_slash in Hp by done. injection Hp as <-.
    cbn [Chord.symbol Chord.section Chord.root Chord.bass_note Chord.suffix].
    destruct (root_suffix_normal (PyStr.strip token) (strip_idemp token))
      as (H1 & H2 & H3 & H4).
    split; [done|]. split; [done|]. split; [apply strip_idemp|]. done.
Qed.

(** X7: the fields of a chord built by the constructor are in normal form:
    the symbol is the stripped token, the section is kept as given, the
    symbol, the root, the bass note and the suffix have no white space at
    either end, the suffix is in lower case, and the root has at most two
    characters. *)
Theorem chord_fields_normal token section c :
  Chord.init token section = Ok c ->
  Chord.symbol c = PyStr.strip token /\
  Chord.section c = section /\
  PyStr.strip (Chord.symbol c) = Chord.symbol c /\
  PyStr.strip (Chord.root c) = Chord.root c /\
  (String.length (Chord.root c) <= 2)%nat /\
  PyStr.strip (Chord.bass_note c) = Chord.bass_note c /\
  PyStr.strip (Chord.suffix c) = Chord.suffix c /\
  PyStr.lower (Chord.suffix c) = Chord.suffix c.
Proof. apply init_fields_normal. Qed.

Lemma chord_fields_normal_witness :
  exists c,
    Chord.init "  BbMAJ7 / d " "Intro " = Ok c /\
    Chord.symbol c = PyStr.strip "  BbMAJ7 / d " /\
    Chord.section c = "Intro " /\
    PyStr.lower (Chord.suffix c) = Chord.suffix c.
Proof.
  eexists. split; [reflexivity|].
  destruct (chord_fields_normal "  BbMAJ7 / d " "Intro " _ eq_refl)
    as (H1 & H2 & _ & _ & _ & _ & _ & H8).
  split; [exact H1|]. split; [exact H2 | exact H8].
Defined.

(** ** Saving and loading *)

Lemma mapM_Ok {A B} (f : A -> result B) (l : list A) (k : list B) :
  Forall2 (fun x y => f x = Ok y) l k -> mapM f l = Ok k.
Proof.
  induction 1 as [|x y l k Hxy _ IH]; [done|].
  simpl. rewrite Hxy. simpl. by rewrite IH.
Qed.

Lemma mapM_Ok_inv {A B} (f : A -> result B) (l : list A) (k : list B) :
  mapM f l = Ok k -> Forall2 (fun x y => f x = Ok y) l k.
Proof.
  revert k. induction l as [|x l IH]; intros k; simpl.
  - intros [= <-]. constructor.
  - destruct (f x) as [y|] eqn:Hx; simpl; [|done].
    destruct (mapM f l) as [k'|] eqn:Hl; simpl; [|done].
    intros [= <-]. constructor; [done | by apply IH].
Qed.

(** Building a constructed chord again from its symbol and section, and
    putting its bass note back, gives the same chord. *)
Lemma load_chord_constructed chords c :
  constructed c ->
  BassChordApp.load_chord chords
    (mk_chord_data (Chord.symbol c) (Chord.section c) (Chord.bass_note c))
  = Ok (chords ++ [c]).
Proof.
  intros (token & section & c0 & Hi & Hc).
  destruct (init_fields_normal _ _ _ Hi) as (Hsym & Hsec & _).
  unfold BassChordApp.load_chord. cbn [data_symbol data_section data_bass_note].
  assert (Chord.init (Chord.symbol c) (Chord.section c) = Ok c0) as ->.
  { rewrite Hc. cbn [with_bass Chord.symbol Chord.section].
    unfold Chord.init in *. by rewrite Hsym, Hsec, strip_idemp. }
  simpl. apply (f_equal (fun x => Ok (chords ++ [x]))).
  symmetry. exact Hc.
Qed.

(** X8: saving and loading is a round trip on the chords and the cards.
    For cards whose chords were built by the constructor (their bass notes
    possibly overwritten by an earlier load) and which were computed with
    the key and the string count of the document, the chords and cards
    rebuilt by [load_cards] from the chord dicts that [save_cards] writes
    are the same chords and the same cards, in the same order. *)
Theorem save_load_round_trip cards key string_count :
  Forall (fun card =>
            constructed (BassCard.chord card) /\
            BassCard.init (BassCard.chord card) key string_count = Ok card)
         cards ->
  BassChordApp.load_chords (BassChordApp.save_chords cards) key string_count
  = Ok (map BassCard.chord cards, cards).
Proof.
  intros Hall. unfold BassChordApp.load_chords.
  assert (forall chords,
            for_ (BassChordApp.save_chords cards) BassChordApp.load_chord chords
            = Ok (chords ++ map BassCard.chord cards)) as Hfor.
  { induction Hall as [|card cards [Hc _] _ IH]; intros chords; simpl.
    - by rewrite app_nil_r.
    - rewrite (load_chord_constructed chords _ Hc). simpl.
      rewrite IH. by rewrite <- app_assoc. }
  rewrite Hfor. clear Hfor. simpl.
  rewrite (mapM_Ok _ _ cards); [done|].
  induction Hall as [|card cards [_ Hi] _ IH]; simpl; by constructor.
Qed.

Lemma save_load_round_trip_witness :
  exists c card,
    Chord.init "B7/D#" "Verse" = Ok c /\
    BassCard.init (with_bass "F#" c) (Some "Em") 4 = Ok card /\
    BassChordApp.load_chords (BassChordApp.save_chords [card]) (Some "Em") 4
    = Ok ([with_bass "F#" c], [card]).
Proof.
  destruct (init_str (with_bass "F#"
    (Chord.mk "B7/D#" "Verse" "B" "D#" "7")) "Em" 4)
    as (d & n & _ & _ & Hi); [left; reflexivity|].
  match type of Hi with _ = Ok ?c => set (card := c) in * end.
  exists (Chord.mk "B7/D#" "Verse" "B" "D#" "7"), card.
  split; [reflexivity|]. split; [exact Hi|].
  assert (Forall (fun card =>
                    constructed (BassCard.chord card) /\
                    BassCard.init (BassCard.chord card) (Some "Em") 4 = Ok card)
                 [card]) as Hall.
  { constructor; [|constructor]. split; [|exact Hi].
    exists "B7/D#", "Verse". eexists. split; reflexivity. }
  exact (save_load_round_trip [card] (Some "Em") 4 Hall).
Defined.

(** ** The tonic chord *)

(** The root of a chord built by the constructor: nothing, one character,
    or a letter A to G with an accidental. *)
Lemma init_root_shape token section c :
  Chord.init token section = Ok c ->
  Chord.root c = "" \/
  (exists ch, Chord.root c = String ch "") \/
  (exists ch, (65 <= N_of_ascii ch <= 71)%N /\
              (Chord.root c = String ch "#" \/ Chord.root c = String ch "b")).
Proof.
  intros Hi.
  assert (exists cp, Chord.root c = (Chord.root_suffix cp).1) as [cp ->].
  { unfold Chord.init in Hi.
    destruct (PyStr.contains "/" (PyStr.strip token)) eqn:Hc.
    - destruct (first_occurrence _ _ Hc) as (pre & rest & Hs & Hpre).
      destruct (split_nonempty "/" rest) as (seg & more & Hr).
      rewrite Hs, (parse_slash _ _ _ _ _ Hpre Hr) in Hi.
      injection Hi as <-. by eexists.
    - rewrite parse_no_slash in Hi by done. injection Hi as <-. by eexists. }
  unfold Chord.root_suffix.
  destruct (re_match_root cp) as [r|] eqn:Hm; cbn [fst].
  - destruct (re_match_root_shape _ _ Hm) as (ch & Hch & [-> | Hr]).
    + right; left. by eexists.
    + right; right. by exists ch.
  - destruct cp; [by left | right; left; by eexists].
Qed.

(** In the key named after a root, with or without the minor mark, that
    root has the pitch class of the key. *)
Lemma tonic_key_facts r :
  (exists ch, r = String ch "") \/
  (exists ch, (65 <= N_of_ascii ch <= 71)%N /\
              (r = String ch "#" \/ r = String ch "b")) ->
  pitch_class (key_root r) = pitch_class r /\
  pitch_class (key_root (r +:+ "m")) = pitch_class r /\
  Song.minor_like (r +:+ "m") = true.
Proof.
  intros [[ch ->] | (ch & Hch%letter_cases & Hr)].
  - by destruct ch as [[] [] [] [] [] [] [] []].
  - by destruct Hch as [-> | [-> | [-> | [-> | [-> | [-> | ->]]]]]];
      destruct Hr as [-> | ->].
Qed.

Lemma degree_label_zero tbl label :
  tbl !! 0%nat = Some label -> BassCard.degree_label tbl 0 = Ok label.
Proof. intros H. unfold BassCard.degree_label, index. simpl. by rewrite H. Qed.

(** X9: the chords on the detected key's root are the tonic.  For chords
    built by the constructor with at least one non-empty root, the detected
    key is the most frequent root [r], with or without the minor mark, and
    every chord on [r] gets the first degree in that key: ["i"] when the key
    reads as minor, ["I"] otherwise. *)
Theorem tonic_chord_degree chords :
  Forall constructed chords ->
  nonempty_roots chords <> [] ->
  exists key r,
    Song.detect_key chords = Ok key /\
    r ∈ nonempty_roots chords /\
    (forall r', (count r' (nonempty_roots chords)
                 <= count r (nonempty_roots chords))%nat) /\
    (key = r \/ key = r +:+ "m") /\
    forall c, c ∈ chords -> Chord.root c = r ->
              BassCard._get_scale_degree c (Some key)
              = Ok (if Song.minor_like key then "i" else "I").
Proof.
  intros Hcons Hne.
  destruct (detect_key_max_root chords Hne) as (r & Hin & Hmax & Hkey).
  set (minor := Song.scan_minor r chords) in *.
  exists (r +:+ (if minor then "m" else "")), r.
  split; [done|]. split; [done|]. split; [done|].
  assert (r +:+ "" = r) as Hnil.
  { clear. induction r as [|a r IH]; [done|].
    change (String a r +:+ "") with (String a (r +:+ "")). by rewrite IH. }
  split; [destruct minor; [by right | left; by rewrite Hnil]|].
  intros c Hc Hr.
  assert (r <> "") as Hrne.
  { unfold nonempty_roots in Hin. by apply list_elem_of_filter in Hin as [? _]. }
  assert ((exists ch, r = String ch "") \/
          (exists ch, (65 <= N_of_ascii ch <= 71)%N /\
                      (r = String ch "#" \/ r = String ch "b"))) as Hshape.
  { apply (proj1 (Forall_forall _ _) Hcons) in Hc
      as (token & section & c0 & Hi & Heq).
    assert (Chord.root c0 = r) as <- by (rewrite <- Hr, Heq; done).
    destruct (init_root_shape _ _ _ Hi) as [H | H]; [done | exact H]. }
  destruct (tonic_key_facts r Hshape) as (Hk1 & Hk2 & Hk3).
  assert (forall key, key <> "" ->
            pitch_class (key_root key) = pitch_class r ->
            BassCard._get_scale_degree c (Some key)
            = Ok (if Song.minor_like key then "i" else "I")) as Hdeg.
  { intros key Hkne Hpk.
    rewrite get_scale_degree_str by (by rewrite ?Hr).
    unfold degree_semitones. rewrite Hr, Hpk, Z.sub_diag.
    change (0 mod 12) with 0.
    destruct (Song.minor_like key); by apply degree_label_zero. }
  destruct minor.
  - apply Hdeg; [|done]. by destruct r.
  - rewrite Hnil. by apply Hdeg.
Qed.

Lemma tonic_chord_degree_witness :
  exists key r,
    Song.detect_key example_progression = Ok key /\
    r ∈ nonempty_roots example_progression /\
    (forall r', (count r' (nonempty_roots example_progression)
                 <= count r (nonempty_roots example_progression))%nat) /\
    (key = r \/ key = r +:+ "m") /\
    forall c, c ∈ example_progression -> Chord.root c = r ->
              BassCard._get_scale_degree c (Some key)
              = Ok (if Song.minor_like key then "i" else "I").
Proof.
  apply tonic_chord_degree; [|discriminate].
  repeat constructor.
  - exists "Em", "". eexists. split; reflexivity.
  - exists "C", "". eexists. split; reflexivity.
  - exists "B", "". eexists. split; reflexivity.
  - exists "Em", "". eexists. split; reflexivity.
  - exists "C", "". eexists. split; reflexivity.
  - exists "B", "". eexists. split; reflexivity.
  - exists "Em", "". eexists. split; reflexivity.
  - exists "C", "". eexists. split; reflexivity.
Defined.

(** ** Analysing a song text *)


(** A loop whose body returns and keeps a relation to the state it
    started from returns and keeps it. *)
Lemma for_invariant {A S} (R : S -> S -> Prop) (l : list A)
    (body : S -> A -> result S) :
  (forall s, R s s) ->
  (forall s1 s2 s3, R s1 s2 -> R s2 s3 -> R s1 s3) ->
  (forall s a, exists s', body s a = Ok s' /\ R s s') ->
  forall s, exists s', for_ l body s = Ok s' /\ R s s'.
Proof.
  intros Hrefl Htrans Hbody. induction l as [|a l IH]; intros s; simpl.
  - by exists s.
  - destruct (Hbody s a) as (s1 & -> & H1). simpl.
    destruct (IH s1) as (s2 & -> & H2). exists s2. split; [done|].
    by eapply Htrans.
Qed.

Section tokens.
Implicit Types (c : ascii) (s t : string).

(** The tokens of [findall] are not empty and hold no white space. *)
Lemma findall_nonspace_tokens s :
  Forall (fun t => t <> "" /\ no_space t) (BassChordApp.findall_nonspace s).
Proof.
  induction s as [|c s IH]; [constructor|].
  cbn [BassChordApp.findall_nonspace].
  destruct (PyStr.isspace c) eqn:Hc; [done|].
  destruct s as [|d s]; [by repeat constructor|].
  destruct (PyStr.isspace d) eqn:Hd.
  - constructor; [by repeat split | done].
  - destruct (BassChordApp.findall_nonspace (String d s)) as [|h t];
      [by repeat constructor|].
    apply Forall_cons in IH as [[Hh1 Hh2] Ht].
    constructor; [|done]. by repeat split.
Qed.


End tokens.

(** One step of the token loop appends exactly one chord. *)
Lemma token_step_spec section song token :
  token <> "" -> no_space token ->
  exists c,
    Chord.init token section = Ok c /\ Chord.symbol c = token /\
    BassChordApp.token_step section song token
    = Ok (Song.mk (Song.title song) (Song.author song) (Song.key song)
            (Song.chords song ++ [c])).
Proof.
  intros Hne Hsp. unfold BassChordApp.token_step, Song.add_chord.
  rewrite (strip_no_space _ Hsp).
  apply truthy_true in Hne as Ht. rewrite Ht.
  destruct (parse_returns (PyStr.strip token) section) as [c Hc].
  exists c. unfold Chord.init. rewrite Hc. split; [done|]. split; [|done].
  destruct (init_fields_normal token section c Hc) as [-> _].
  by apply strip_no_space.
Qed.

Lemma token_loop_spec section tokens song :
  Forall (fun t => t <> "" /\ no_space t) tokens ->
  exists new,
    Forall2 (fun t c => Chord.init t section = Ok c /\ Chord.symbol c = t)
            tokens new /\
    for_ tokens (BassChordApp.token_step section) song
    = Ok (Song.mk (Song.title song) (Song.author song) (Song.key song)
            (Song.chords song ++ new)).
Proof.
  intros Hall. revert song.
  induction Hall as [|t tokens [Hne Hsp] _ IH]; intros song.
  - exists []. split; [constructor|]. simpl. rewrite app_nil_r. by destruct song.
  - destruct (token_step_spec section song t Hne Hsp) as (c & Hc & Hs & Hstep).
    simpl. rewrite Hstep. simpl.
    destruct (IH (Song.mk (Song.title song) (Song.author song) (Song.key song)
                    (Song.chords song ++ [c]))) as (new & Hnew & Hfor).
    exists (c :: new). split; [by constructor|].
    rewrite Hfor. cbn [Song.title Song.author Song.key Song.chords].
    by rewrite <- app_assoc.
Qed.

(** The state after a line, by the kind of the line. *)
Lemma line_step_spec song section line :
  let stripped := PyStr.strip line in
  exists new section',
    BassChordApp.line_step (song, section) line
    = Ok (Song.mk (Song.title song) (Song.author song) (Song.key song)
            (Song.chords song ++ new), section') /\
    Forall (from_token section) new /\
    (BassChordApp.match_section_header stripped = true ->
     new = [] /\
     section' = PyStr.strip
                  (BassChordApp.drop_last (PyStr.slice_from 1%nat stripped))) /\
    (BassChordApp.match_section_header stripped = false ->
     section' = section /\
     (PyStr.startswith "." stripped = false -> new = []) /\
     (PyStr.startswith "." stripped = true ->
      Forall2 (fun t c => Chord.init t section = Ok c /\ Chord.symbol c = t)
        (BassChordApp.findall_nonspace
           (PyStr.strip (PyStr.slice_from 1%nat stripped)))
        new)).
Proof.
  intros stripped. unfold BassChordApp.line_step. fold stripped.
  assert (Song.mk (Song.title song) (Song.author song) (Song.key song)
            (Song.chords song ++ []) = song) as Hsame
    by (rewrite app_nil_r; by destruct song).
  destruct (PyStr.truthy stripped) eqn:Ht; cbn [negb].
  - destruct (BassChordApp.match_section_header stripped) eqn:Hh.
    + exists [], (PyStr.strip
                    (BassChordApp.drop_last (PyStr.slice_from 1%nat stripped))).
      rewrite Hsame. by repeat split.
    + destruct (PyStr.startswith "." stripped) eqn:Hd.
      * destruct (token_loop_spec section _ song
                    (findall_nonspace_tokens
                       (PyStr.strip (PyStr.slice_from 1%nat stripped))))
          as (new & Hnew & Hfor).
        rewrite Hfor.
        exists new, section. split; [done|]. split.
        -- pose proof (findall_nonspace_tokens
                         (PyStr.strip (PyStr.slice_from 1%nat stripped))) as Htok.
           clear -Hnew Htok. induction Hnew as [|t c ts cs [Hi Hs] _ IH];
             [constructor|].
           apply Forall_cons in Htok as [[Hne Hsp] Htok].
           constructor; [|by apply IH]. by exists t.
        -- split; [done|]. by repeat split.
      * exists [], section. rewrite Hsame. by repeat split.
  - apply truthy_false in Ht. exists [], section. rewrite Hsame.
    split; [done|]. split; [constructor|]. rewrite Ht. by repeat split.
Qed.

(** X10: what one line of the text does.  A section header (an opening
    bracket, any text, a closing bracket) adds no chord and makes the
    trimmed text between the brackets the current section.  Any other line
    keeps the current section; if it begins with a dot it appends one chord
    per token of the rest, in order, each built from its token and filed
    under the current section; otherwise it adds nothing.  Title, author,
    key and the chords already read are never changed. *)
Theorem line_step_sections song section line :
  exists new section',
    BassChordApp.line_step (song, section) line
    = Ok (Song.mk (Song.title song) (Song.author song) (Song.key song)
            (Song.chords song ++ new), section') /\
    (BassChordApp.match_section_header (PyStr.strip line) = true ->
     new = [] /\
     section' =
       PyStr.strip
         (BassChordApp.drop_last (PyStr.slice_from 1%nat (PyStr.strip line)))) /\
    (BassChordApp.match_section_header (PyStr.strip line) = false ->
     section' = section /\
     (PyStr.startswith "." (PyStr.strip line) = false -> new = []) /\
     (PyStr.startswith "." (PyStr.strip line) = true ->
      Forall2 (fun t c => Chord.init t section = Ok c /\ Chord.symbol c = t)
        (BassChordApp.findall_nonspace
           (PyStr.strip (PyStr.slice_from 1%nat (PyStr.strip line))))
        new)) /\
    (BassChordApp.line_step
       (song, "") " [ Chorus 2 ] " = Ok (song, "Chorus 2")).
Proof.
  destruct (line_step_spec song section line)
    as (new & section' & Hstep & _ & Hh & Hn).
  exists new, section'. split; [done|]. split; [done|]. split; [done|].
  by destruct song.
Qed.

Lemma detect_key_nonempty chords k :
  Song.detect_key chords = Ok k -> k <> "".
Proof.
  destruct (decide (nonempty_roots chords = [])) as [Hr | Hr].
  - rewrite (detect_key_no_root chords Hr). by intros [= <-].
  - destruct (detect_key_max_root chords Hr) as (r & Hin & _ & ->).
    intros [= <-].
    unfold nonempty_roots in Hin.
    apply list_elem_of_filter in Hin as [Hne _]. by destruct r.
Qed.

Lemma mapM_init_returns chords k sc :
  sc = 4 \/ sc = 5 ->
  exists cards,
    mapM (fun chord => BassCard.init chord (Some k) sc) chords = Ok cards /\
    Forall2 (fun chord card => BassCard.init chord (Some k) sc = Ok card)
            chords cards.
Proof.
  intros Hsc. induction chords as [|c chords (cards & Hm & Hf)].
  - exists []. split; [done | constructor].
  - destruct (init_str c k sc Hsc) as (d & n & _ & _ & Hi).
    eexists (_ :: cards). simpl. rewrite Hi. simpl. rewrite Hm.
    split; [done|]. by constructor.
Qed.

(** X11: analysing a text never fails and never leaves the key absent.
    For every text, every previous song and 4 or 5 strings, the analysis
    returns; title and author are the ones entered; the key afterwards is a
    non-empty string, the previous key if there was a non-empty one and the
    detected key otherwise; there is one card per chord, in order, each
    computed with that key; and every chord comes from a token that is not
    empty and has no white space. *)
Theorem analyze_chords_returns song title author song_text string_count :
  string_count = 4 \/ string_count = 5 ->
  exists chords k cards,
    BassChordApp.analyze_chords song title author song_text string_count
    = Ok (Song.mk title author (Some k) chords, cards) /\
    k <> "" /\
    (BassCard.key_truthy (Song.key song) = true -> Song.key song = Some k) /\
    (BassCard.key_truthy (Song.key song) = false ->
     Song.detect_key chords = Ok k) /\
    Forall2 (fun chord card =>
               BassCard.init chord (Some k) string_count = Ok card)
            chords cards /\
    Forall (fun c => exists section, from_token section c) chords.
Proof.
  intros Hsc. unfold BassChordApp.analyze_chords.
  set (R := fun (s1 s2 : Song.t * string) =>
              Song.title s2.1 = Song.title s1.1 /\
              Song.author s2.1 = Song.author s1.1 /\
              Song.key s2.1 = Song.key s1.1 /\
              exists new,
                Song.chords s2.1 = Song.chords s1.1 ++ new /\
                Forall (fun c => exists section, from_token section c) new).
  destruct (for_invariant R (PyStr.split "010" song_text)
              BassChordApp.line_step) with
    (s := (Song.mk title author (Song.key song) [], ""))
    as ([song1 sec1] & -> & Ht & Ha & Hk & new & Hch & Hnew).
  { intros s. repeat split. exists []. by rewrite app_nil_r. }
  { intros s1 s2 s3 (Ht1 & Ha1 & Hk1 & n1 & Hc1 & F1)
                    (Ht2 & Ha2 & Hk2 & n2 & Hc2 & F2).
    repeat split; try congruence.
    exists (n1 ++ n2). rewrite Hc2, Hc1, app_assoc. split; [done|].
    by apply Forall_app. }
  { intros [sg sec] line.
    destruct (line_step_spec sg sec line) as (n & sec' & -> & Hf & _).
    eexists. split; [done|]. repeat split. exists n. split; [done|].
    eapply Forall_impl; [exact Hf|]. intros c Hc. by exists sec. }
  cbn [fst snd Song.title Song.author Song.key Song.chords] in *.
  simpl in Hch. destruct song1 as [t1 a1 k1 ch1].
  cbn [Song.title Song.author Song.key Song.chords] in *. subst t1 a1 k1 ch1.
  simpl.
  destruct (BassCard.key_truthy (Song.key song)) eqn:Hkt; simpl.
  - destruct (Song.key song) as [k|] eqn:Hkey; [|done].
    destruct (mapM_init_returns new k string_count Hsc) as (cards & -> & Hf).
    exists new, k, cards. simpl. split; [done|].
    split; [by apply truthy_true|]. by repeat split.
  - destruct (detect_key_returns new) as [k Hd]. rewrite Hd. simpl.
    destruct (mapM_init_returns new k string_count Hsc) as (cards & -> & Hf).
    exists new, k, cards. simpl. split; [done|].
    split; [by eapply detect_key_nonempty|]. by repeat split.
Qed.

Lemma analyze_chords_returns_witness :
  exists chords k cards,
    BassChordApp.analyze_chords (Song.mk "" "" None []) "Title" "Author"
      ".Em C" 4
    = Ok (Song.mk "Title" "Author" (Some k) chords, cards) /\
    k <> "" /\ Song.detect_key chords = Ok k /\
    Forall2 (fun chord card => BassCard.init chord (Some k) 4 = Ok card)
            chords cards.
Proof.
  destruct (analyze_chords_returns (Song.mk "" "" None []) "Title" "Author"
              ".Em C" 4) as (chords & k & cards & H1 & H2 & _ & H4 & H5 & _);
    [left; reflexivity|].
  exists chords, k, cards. split; [exact H1|]. split; [exact H2|].
  split; [apply H4; reflexivity | exact H5].
Defined.




Lemma line_step_sections_witness :
  exists new section',
    BassChordApp.line_step (Song.mk "T" "A" None [], "Verse") ". Em  C/G"
    = Ok (Song.mk "T" "A" None ([] ++ new), section') /\
    section' = "Verse" /\
    Forall2 (fun t c => Chord.init t "Verse" = Ok c /\ Chord.symbol c = t)
            ["Em"; "C/G"] new.
Proof.
  destruct (line_step_sections (Song.mk "T" "A" None []) "Verse" ". Em  C/G")
    as (new & section' & Hstep & _ & Hn & _).
  exists new, section'. split; [exact Hstep|].
  destruct (Hn eq_refl) as (Hs & _ & Hc). split; [exact Hs|].
  exact (Hc eq_refl).
Defined.

(** With an absent key no card can be built. *)
Lemma init_absent_key chord sc :
  exists e, BassCard.init chord None sc = Raise e.
Proof.
  unfold BassCard.init.
  rewrite (get_scale_degree_unknown chord None) by auto. simpl.
  destruct (decide (Chord.root chord = "")) as [Hr | Hr].
  - apply truthy_false in Hr as Ht.
    unfold BassCard._get_chord_notes, BassCard._get_chord_note_pitches.
    rewrite Ht. simpl. unfold BassCard._generate_fretboard, subscript.
    destruct (BASS_TUNINGS !! sc) as [tuning|] eqn:E; simpl; [|by eexists].
    apply elem_of_list_to_map_2 in E.
    repeat (apply elem_of_cons in E as [E | E];
            [injection E as -> ->; by eexists|]).
    by apply elem_of_nil in E.
  - apply truthy_true in Hr as Ht.
    unfold BassCard._get_chord_notes. rewrite Ht. simpl. by eexists.
Qed.

Lemma load_chord_returns chords d :
  exists c, BassChordApp.load_chord chords d = Ok (chords ++ [c]).
Proof.
  unfold BassChordApp.load_chord, Chord.init.
  destruct (parse_returns (PyStr.strip (data_symbol d)) (data_section d))
    as [c ->].
  by eexists.
Qed.

Lemma load_loop_returns data chords :
  exists new,
    for_ data BassChordApp.load_chord chords = Ok (chords ++ new) /\
    length new = length data.
Proof.
  revert chords. induction data as [|d data IH]; intros chords; simpl.
  - exists []. by rewrite app_nil_r.
  - destruct (load_chord_returns chords d) as [c ->]. simpl.
    destruct (IH (chords ++ [c])) as (new & -> & Hlen).
    exists (c :: new). rewrite <- app_assoc. split; [done|]. simpl. lia.
Qed.

(** X13: loading a document whose key is absent.  The chords are always
    rebuilt, one per chord dict; but with the key [None] the cards cannot
    be computed: loading fails as soon as the document has one chord, for
    every string count, and succeeds with no chord and no card only for a
    document without chords. *)
Theorem load_absent_key data string_count :
  (data <> [] ->
   exists e, BassChordApp.load_chords data None string_count = Raise e) /\
  (data = [] ->
   BassChordApp.load_chords data None string_count = Ok ([], [])) /\
  (forall k, string_count = 4 \/ string_count = 5 ->
     exists chords cards,
       BassChordApp.load_chords data (Some k) string_count = Ok (chords, cards) /\
       length chords = length data /\ length cards = length data).
Proof.
  unfold BassChordApp.load_chords.
  destruct (load_loop_returns data []) as (new & Hfor & Hlen).
  rewrite Hfor. simpl. split; [|split].
  - intros Hne. destruct new as [|c new]; [by destruct data|]. simpl.
    destruct (init_absent_key c string_count) as [e ->]. by exists e.
  - intros ->. by destruct new.
  - intros k Hsc.
    destruct (mapM_init_returns new k string_count Hsc) as (cards & -> & Hf).
    exists new, cards. split; [done|]. split; [done|].
    by rewrite <- (Forall2_length _ _ _ Hf).
Qed.

Lemma load_absent_key_witness :
  exists e,
    BassChordApp.load_chords [mk_chord_data "Am7" "Verse" "A"] None 4 = Raise e.
Proof.
  apply (proj1 (load_absent_key [mk_chord_data "Am7" "Verse" "A"] 4)).
  discriminate.
Defined.
